(** * Peggy denominations and ERC20 token amounts (x/peggy/types/ethereum.go)

    A shallow embedding of the Ethereum-address side of the peggy module:
    the codec between a 20-byte contract address and a peggy denomination,
    and the [ERC20Token] value with its validation and checked addition.

    Go strings are [string], byte slices are [list byte]; a conversion
    [[]byte(s)] is [list_byte_of_string s].  A Go call that can panic
    returns an [outcome]; a Go [(T, error)] pair is a [result]; a lone
    [error] is an [option error], [None] being [nil]. *)

From Stdlib Require Import NArith ZArith List String Ascii Strings.Byte Bool Lia.
From Stdlib Require Import DecimalString.
Import ListNotations.
Local Open Scope string_scope.
Local Open Scope Z_scope.

(** ** Panics *)

Inductive outcome (A : Type) : Type :=
| Returned (a : A)
| Panicked (msg : string).
Arguments Returned {A} a.
Arguments Panicked {A} msg.

(** ** Package [bytes] *)

Module bytes.

Fixpoint Equal (a b : list byte) : bool :=
  match a, b with
  | [], [] => true
  | x :: a', y :: b' => Byte.eqb x y && Equal a' b'
  | _, _ => false
  end.

(** [len(s) >= len(prefix) && Equal(s[:len(prefix)], prefix)] *)
Definition HasPrefix (s prefix : list byte) : bool :=
  (List.length prefix <=? List.length s)%nat
  && Equal (firstn (List.length prefix) s) prefix.

(** [if HasPrefix(s, prefix) { return s[len(prefix):] }; return s] *)
Definition TrimPrefix (s prefix : list byte) : list byte :=
  if HasPrefix s prefix then skipn (List.length prefix) s else s.

(** Three-way lexicographic comparison: the first differing byte decides,
    and a proper prefix is smaller.  The result is -1, 0 or +1. *)
Fixpoint Compare (a b : list byte) : Z :=
  match a, b with
  | [], [] => 0
  | [], _ :: _ => -1
  | _ :: _, [] => 1
  | x :: a', y :: b' =>
      if (Byte.to_N x <? Byte.to_N y)%N then -1
      else if (Byte.to_N y <? Byte.to_N x)%N then 1
      else Compare a' b'
  end.

End bytes.

(** ** Package [strings] *)

Module strings.

Fixpoint drop (n : nat) (s : string) : string :=
  match n, s with
  | O, _ => s
  | S n', String _ s' => drop n' s'
  | S _, EmptyString => EmptyString
  end.

(** [len(s) >= len(prefix) && s[0:len(prefix)] == prefix] *)
Definition HasPrefix (s prefix : string) : bool :=
  (String.length prefix <=? String.length s)%nat
  && String.eqb (substring 0 (String.length prefix) s) prefix.

(** [if HasPrefix(s, prefix) { return s[len(prefix):] }; return s] *)
Definition TrimPrefix (s prefix : string) : string :=
  if HasPrefix s prefix then drop (String.length prefix) s else s.

End strings.

(** ** Package [encoding/hex] *)

Module hex.

Definition hextable : string := "0123456789abcdef".

Definition digit (n : N) : ascii :=
  match String.get (N.to_nat n) hextable with
  | Some c => c
  | None => "0"%char
  end.

(** [dst[j] = hextable[v>>4]; dst[j+1] = hextable[v&0x0f]] for each byte. *)
Fixpoint EncodeToString (src : list byte) : string :=
  match src with
  | [] => EmptyString
  | v :: rest =>
      String (digit (N.shiftr (Byte.to_N v) 4))
        (String (digit (N.land (Byte.to_N v) 15)) (EncodeToString rest))
  end.

(** The reverse table: the value of a hexadecimal character, or [None]
    where the table holds 0xff. *)
Definition fromHexChar (c : ascii) : option N :=
  let n := N_of_ascii c in
  if ((48 <=? n) && (n <=? 57))%N then Some (n - 48)%N
  else if ((97 <=? n) && (n <=? 102))%N then Some (n - 97 + 10)%N
  else if ((65 <=? n) && (n <=? 70))%N then Some (n - 65 + 10)%N
  else None.

Definition byte_of_N (n : N) : byte :=
  match Byte.of_N n with
  | Some b => b
  | None => x00
  end.

(** [Decode] walks the source two characters at a time and stops at the
    first character that is not hexadecimal, or at a trailing odd
    character.  The pair is the bytes written so far and whether an
    error was reported. *)
Fixpoint Decode (src : string) : list byte * bool :=
  match src with
  | EmptyString => ([], false)
  | String _ EmptyString => ([], true)
  | String p (String q rest) =>
      match fromHexChar p, fromHexChar q with
      | Some a, Some b =>
          let '(out, err) := Decode rest in
          (byte_of_N (N.lor (N.shiftl a 4) b) :: out, err)
      | _, _ => ([], true)
      end
  end.

End hex.

(** ** Legacy Keccak-256 ([golang.org/x/crypto/sha3.NewLegacyKeccak256])

    The sponge over Keccak-f[1600] with rate 136 bytes and the original
    Keccak padding (0x01 ... 0x80).  The state is 25 lanes of 64 bits,
    lane (x, y) at index x + 5y. *)

Module Keccak.

Definition mask64 : Z := 0xFFFFFFFFFFFFFFFF.

Definition rotl64 (x : Z) (n : Z) : Z :=
  Z.lor (Z.land (Z.shiftl x n) mask64) (Z.shiftr x (64 - n)).

Definition lane (A : list Z) (x y : nat) : Z :=
  nth (x mod 5 + 5 * (y mod 5)) A 0.

Definition idx5 : list nat := [0; 1; 2; 3; 4]%nat.

Definition build (f : nat -> nat -> Z) : list Z :=
  flat_map (fun y => map (fun x => f x y) idx5) idx5.

(** Rotation offsets, [rotc[x][y]]. *)
Definition rotc : list (list Z) :=
  [[0; 36; 3; 41; 18]; [1; 44; 10; 45; 2]; [62; 6; 43; 15; 61];
   [28; 55; 25; 21; 56]; [27; 20; 39; 8; 14]].

Definition RC : list Z :=
  [0x0000000000000001; 0x0000000000008082; 0x800000000000808A;
   0x8000000080008000; 0x000000000000808B; 0x0000000080000001;
   0x8000000080008081; 0x8000000000008009; 0x000000000000008A;
   0x0000000000000088; 0x0000000080008009; 0x000000008000000A;
   0x000000008000808B; 0x800000000000008B; 0x8000000000008089;
   0x8000000000008003; 0x8000000000008002; 0x8000000000000080;
   0x000000000000800A; 0x800000008000000A; 0x8000000080008081;
   0x8000000000008080; 0x0000000080000001; 0x8000000080008008].

Definition theta (A : list Z) : list Z :=
  let C x := fold_left Z.lxor (map (lane A x) idx5) 0 in
  let D x := Z.lxor (C (x + 4)%nat) (rotl64 (C (x + 1)%nat) 1) in
  build (fun x y => Z.lxor (lane A x y) (D x)).

(** B[y, 2x+3y] = rot(A[x,y], r[x,y]), read from the destination: the
    lane that lands on (X, Y) comes from x = X + 3Y, y = X. *)
Definition rho_pi (A : list Z) : list Z :=
  build (fun X Y =>
    let x := ((X + 3 * Y) mod 5)%nat in
    let y := X in
    rotl64 (lane A x y) (nth y (nth x rotc []) 0)).

Definition chi (B : list Z) : list Z :=
  build (fun x y =>
    Z.lxor (lane B x y)
      (Z.land (Z.lxor (lane B (x + 1) y) mask64) (lane B (x + 2) y))).

Definition iota (rc : Z) (A : list Z) : list Z :=
  match A with
  | a :: rest => Z.lxor a rc :: rest
  | [] => []
  end.

Definition round (A : list Z) (rc : Z) : list Z :=
  iota rc (chi (rho_pi (theta A))).

Definition keccak_f (A : list Z) : list Z := fold_left round RC A.

Definition rate : nat := 136.

Fixpoint le_lane (bs : list byte) : Z :=
  match bs with
  | [] => 0
  | b :: rest => Z.of_N (Byte.to_N b) + 256 * le_lane rest
  end.

Fixpoint lanes_of (n : nat) (bs : list byte) : list Z :=
  match n with
  | O => []
  | S n' => le_lane (firstn 8 bs) :: lanes_of n' (skipn 8 bs)
  end.

Definition bytes_of_lane (z : Z) : list byte :=
  map (fun i => hex.byte_of_N (Z.to_N (Z.shiftr z (8 * Z.of_nat i) mod 256)))
      (seq 0 8).

Fixpoint xor_lanes (A B : list Z) : list Z :=
  match A, B with
  | a :: A', b :: B' => Z.lxor a b :: xor_lanes A' B'
  | _, [] => A
  | [], _ => []
  end.

Definition absorb1 (A : list Z) (block : list byte) : list Z :=
  keccak_f (xor_lanes A (lanes_of 17 block)).

(** Each step consumes a full block, so [S (length msg)] steps are
    always enough. *)
Fixpoint absorb (fuel : nat) (A : list Z) (msg : list byte) : list Z :=
  match fuel with
  | O => A
  | S fuel' =>
      if (List.length msg <? rate)%nat then
        let padlen := (rate - List.length msg)%nat in
        let pad :=
          match padlen with
          | 1%nat => [x81]
          | _ => (x01 :: repeat x00 (padlen - 2) ++ [x80])%list
          end in
        absorb1 A (msg ++ pad)%list
      else absorb fuel' (absorb1 A (firstn rate msg)) (skipn rate msg)
  end.

Definition Keccak256 (msg : list byte) : list byte :=
  let A := absorb (S (List.length msg)) (repeat 0 25) msg in
  firstn 32 (flat_map bytes_of_lane A).

End Keccak.

(** ** Package [github.com/ethereum/go-ethereum/common] *)

Module common.

Definition AddressLength : nat := 20.

(** [type Address [AddressLength]byte]: the bytes of the array. *)
Definition Address : Type := list byte.

Definition has0xPrefix (str : string) : bool :=
  match str with
  | String c0 (String c1 _) =>
      Ascii.eqb c0 "0" && (Ascii.eqb c1 "x" || Ascii.eqb c1 "X")
  | _ => false
  end.

Definition isHexCharacter (c : ascii) : bool :=
  let n := N_of_ascii c in
  ((48 <=? n) && (n <=? 57) || (97 <=? n) && (n <=? 102)
   || (65 <=? n) && (n <=? 70))%N.

Fixpoint allHex (str : string) : bool :=
  match str with
  | EmptyString => true
  | String c rest => if isHexCharacter c then allHex rest else false
  end.

Definition isHex (str : string) : bool :=
  if negb (String.length str mod 2 =? 0)%nat then false else allHex str.

Definition IsHexAddress (s : string) : bool :=
  let s := if has0xPrefix s then strings.drop 2 s else s in
  (String.length s =? 2 * AddressLength)%nat && isHex s.

Definition Hex2Bytes (str : string) : list byte := fst (hex.Decode str).

Definition FromHex (s : string) : list byte :=
  let s := if has0xPrefix s then strings.drop 2 s else s in
  let s := if (String.length s mod 2 =? 1)%nat then "0" ++ s else s in
  Hex2Bytes s.

(** [SetBytes]: keep the last 20 bytes of a longer slice, and copy a
    shorter one to the end of the zeroed array. *)
Definition BytesToAddress (b : list byte) : Address :=
  let b :=
    if (AddressLength <? List.length b)%nat
    then skipn (List.length b - AddressLength) b else b in
  (repeat x00 (AddressLength - List.length b) ++ b)%list.

Definition HexToAddress (s : string) : Address := BytesToAddress (FromHex s).

Definition Bytes (a : Address) : list byte := a.

(** The loop of [checksumHex] over [buf[2:]]; [i] is the index less 2,
    which has the parity of the index. *)
Fixpoint checksum (hash : list byte) (i : nat) (buf : string) : string :=
  match buf with
  | EmptyString => EmptyString
  | String c rest =>
      let hashByte := Byte.to_N (nth (i / 2) hash x00) in
      let hashByte :=
        if Nat.even i then N.shiftr hashByte 4 else N.land hashByte 15 in
      let c' :=
        if ((57 <? N_of_ascii c) && (7 <? hashByte))%N
        then ascii_of_N (N_of_ascii c - 32) else c in
      String c' (checksum hash (S i) rest)
  end.

(** [Address.Hex]: the EIP-55 mixed-case rendering. *)
Definition Hex (a : Address) : string :=
  let digits := hex.EncodeToString a in
  "0x" ++ checksum (Keccak.Keccak256 (list_byte_of_string digits)) 0 digits.

End common.

(** ** Errors

    One constructor for each place an error value is made; [Error] is the
    text its [Error()] method gives. *)

Inductive error : Type :=
| EmptyAddress
    (* fmt.Errorf("empty Ethereum address") *)
| NotValidAddress (address : string)
    (* fmt.Errorf("%s is not a valid Ethereum address", address) *)
| BytePrefixMismatch (p fullPrefix : list byte)
    (* errors.Errorf("denom '%x' byte prefix not equal to expected '%x'", ...) *)
| BadAddressBytes (addressBytes : list byte)
    (* errors.Errorf("failed to validate Ethereum address bytes: %x", ...) *)
| StringPrefixMismatch (denom fullPrefix : string)
    (* errors.Errorf("denom '%s' string prefix not equal to expected '%s'", ...) *)
| InvalidContractAddress
    (* errors.New("invalid contract address") *)
| InvalidAmount
    (* errors.New("invalid amount") *)
| InvalidDenom (denom : string)
    (* sdk: fmt.Errorf("invalid denom: %s", denom) *)
| NegativeCoinAmount (amount : Z)
    (* sdk: fmt.Errorf("negative coin amount: %v", amount) *)
| ErrInvalidCoins
    (* sdkerrors.ErrInvalidCoins, "invalid coins" *)
| Wrap (err : error) (description : string).
    (* sdkerrors.Wrap(err, description) *)

Definition Int_String (i : Z) : string := NilZero.string_of_int (Z.to_int i).

Fixpoint Error (err : error) : string :=
  match err with
  | EmptyAddress => "empty Ethereum address"
  | NotValidAddress address => address ++ " is not a valid Ethereum address"
  | BytePrefixMismatch p fullPrefix =>
      "denom '" ++ hex.EncodeToString p ++ "' byte prefix not equal to expected '"
        ++ hex.EncodeToString fullPrefix ++ "'"
  | BadAddressBytes addressBytes =>
      "failed to validate Ethereum address bytes: " ++ hex.EncodeToString addressBytes
  | StringPrefixMismatch denom fullPrefix =>
      "denom '" ++ denom ++ "' string prefix not equal to expected '"
        ++ fullPrefix ++ "'"
  | InvalidContractAddress => "invalid contract address"
  | InvalidAmount => "invalid amount"
  | InvalidDenom denom => "invalid denom: " ++ denom
  | NegativeCoinAmount amount => "negative coin amount: " ++ Int_String amount
  | ErrInvalidCoins => "invalid coins"
  | Wrap parent msg => msg ++ ": " ++ Error parent
  end.

Inductive result (A : Type) : Type :=
| Ok (a : A)
| Err (err : error).
Arguments Ok {A} a.
Arguments Err {A} err.

(** ** Package [github.com/cosmos/cosmos-sdk/types] *)

Module sdk.

(** [sdk.Int] wraps a [*big.Int]; its operations keep the value within
    [maxBitLen] bits and panic past that.  An [Int] here is one that a
    constructor of the package made; the zero value of the struct, whose
    pointer is nil, is not represented. *)
Definition Int : Type := Z.

(** 256 from cosmos-sdk v0.43 on (it was 255 before). *)
Definition maxBitLen : Z := 256.

(** [big.Int.BitLen]: the length of the absolute value in bits. *)
Definition BitLen (x : Z) : Z :=
  if (x =? 0)%Z then 0 else Z.log2 (Z.abs x) + 1.

Definition NewIntFromUint64 (n : Z) : Int := n.

Definition Add (i i2 : Int) : outcome Int :=
  let res := i + i2 in
  if maxBitLen <? BitLen res then Panicked "Int overflow" else Returned res.

Definition MaxUint64 : Z := 18446744073709551615.

Definition IsUint64 (i : Int) : bool := (0 <=? i) && (i <=? MaxUint64).

Definition Uint64 (i : Int) : outcome Z :=
  if negb (IsUint64 i) then Panicked "Uint64() out of bounds" else Returned i.

Definition IsNegative (i : Int) : bool := i <? 0.

Definition Sign (i : Int) : Z := Z.sgn i.

Record Coin : Type := mkCoin { Denom : string; Amount : Int }.

Definition isLetter (c : ascii) : bool :=
  let n := N_of_ascii c in
  ((97 <=? n) && (n <=? 122) || (65 <=? n) && (n <=? 90))%N.

Definition isDenomChar (c : ascii) : bool :=
  let n := N_of_ascii c in
  (isLetter c || (48 <=? n) && (n <=? 57) || (n =? 47))%N.

Fixpoint allDenomChars (s : string) : bool :=
  match s with
  | EmptyString => true
  | String c rest => isDenomChar c && allDenomChars rest
  end.

(** [reDnm], the anchored expression [[a-zA-Z][a-zA-Z0-9/]{2,127}]. *)
Definition MatchDenom (denom : string) : bool :=
  match denom with
  | EmptyString => false
  | String c rest =>
      isLetter c
      && (2 <=? String.length rest)%nat && (String.length rest <=? 127)%nat
      && allDenomChars rest
  end.

Definition ValidateDenom (denom : string) : option error :=
  if negb (MatchDenom denom) then Some (InvalidDenom denom) else None.

Definition Validate (coin : Coin) : option error :=
  match ValidateDenom (Denom coin) with
  | Some err => Some err
  | None =>
      if IsNegative (Amount coin)
      then Some (NegativeCoinAmount (Amount coin)) else None
  end.

(** [NewCoin] panics with the validation error of the coin it is asked
    to build. *)
Definition NewCoin (denom : string) (amount : Int) : outcome Coin :=
  let coin := mkCoin denom amount in
  match Validate coin with
  | Some err => Panicked (Error err)
  | None => Returned coin
  end.

Definition IsValid (coin : Coin) : bool :=
  match Validate coin with
  | Some _ => false
  | None => true
  end.

Definition IsPositive (coin : Coin) : bool := (Sign (Amount coin) =? 1)%Z.

(** [fmt.Sprintf("%v%v", coin.Amount, coin.Denom)] *)
Definition Coin_String (coin : Coin) : string :=
  Int_String (Amount coin) ++ Denom coin.

End sdk.

(** ** The heap of [ERC20Token] values

    [*ERC20Token] is an index into the list of allocated tokens; an index
    past its end stands for a pointer that cannot be dereferenced. *)

Record ERC20Token : Type := mkERC20Token { Amount : sdk.Int; Contract : string }.

Definition ptr : Type := nat.
Definition heap : Type := list ERC20Token.

Definition M (A : Type) : Type := heap -> outcome (A * heap).

Definition ret {A} (a : A) : M A := fun h => Returned (a, h).

Definition bind {A B} (m : M A) (k : A -> M B) : M B :=
  fun h =>
    match m h with
    | Returned (a, h') => k a h'
    | Panicked msg => Panicked msg
    end.

Notation "x <- m ;; k" := (bind m (fun x => k))
  (at level 61, m at next level, right associativity).

Definition lift {A} (o : outcome A) : M A :=
  fun h =>
    match o with
    | Returned a => Returned (a, h)
    | Panicked msg => Panicked msg
    end.

Definition load (p : ptr) : M ERC20Token :=
  fun h =>
    match nth_error h p with
    | Some t => Returned (t, h)
    | None => Panicked "invalid memory address or nil pointer dereference"
    end.

Definition alloc (t : ERC20Token) : M ptr :=
  fun h => Returned (List.length h, (h ++ [t])%list).

(** ** x/peggy/types/ethereum.go *)

Section Peggy.

(** The module's name, a constant of the package declared outside this
    file. *)
Variable ModuleName : string.

Definition PeggyDenomPrefix : string := ModuleName.
Definition PeggyDenomSeparator : string := "".
Definition ETHContractAddressLen : nat := 20.
Definition PeggyDenomLen : nat :=
  (String.length PeggyDenomPrefix + String.length PeggyDenomSeparator
   + ETHContractAddressLen)%nat.

Definition EthAddrLessThan (e o : string) : bool :=
  (bytes.Compare (list_byte_of_string e) (list_byte_of_string o) =? -1)%Z.

Definition ValidateEthAddress (address : string) : option error :=
  if String.eqb address "" then Some EmptyAddress
  else if negb (common.IsHexAddress address) then Some (NotValidAddress address)
  else None.

Definition NewERC20Token (amount : Z) (contract : common.Address) : M ptr :=
  alloc {| Amount := sdk.NewIntFromUint64 amount; Contract := common.Hex contract |}.

Definition NewSDKIntERC20Token (amount : sdk.Int) (contract : common.Address) : M ptr :=
  alloc {| Amount := amount; Contract := common.Hex contract |}.

Definition PeggyDenom : Type := list byte.

Definition PeggyDenomString (tokenContract : common.Address) : string :=
  PeggyDenomPrefix ++ PeggyDenomSeparator ++ common.Hex tokenContract.

Definition PeggyCoin (e : ptr) : M sdk.Coin :=
  t <- load e ;;
  lift (sdk.NewCoin (PeggyDenomString (common.HexToAddress (Contract t))) (Amount t)).

Definition TokenContract (p : PeggyDenom) : result common.Address :=
  let fullPrefix := list_byte_of_string (PeggyDenomPrefix ++ PeggyDenomSeparator) in
  if negb (bytes.HasPrefix p fullPrefix) then
    Err (BytePrefixMismatch p fullPrefix)
  else
    let addressBytes := bytes.TrimPrefix p fullPrefix in
    if negb (List.length addressBytes =? ETHContractAddressLen)%nat then
      Err (BadAddressBytes addressBytes)
    else Ok (common.BytesToAddress addressBytes).

(** [func (p PeggyDenom) String() string] *)
Definition PeggyDenom_String (p : PeggyDenom) : string :=
  match TokenContract p with
  | Err err => hex.EncodeToString p ++ "(error: " ++ Error err ++ ")"
  | Ok contractAddress => PeggyDenomString contractAddress
  end.

Definition NewPeggyDenom (tokenContract : common.Address) : PeggyDenom :=
  let buf := [] in
  let buf := (buf ++ list_byte_of_string (PeggyDenomPrefix ++ PeggyDenomSeparator))%list in
  let buf := (buf ++ common.Bytes tokenContract)%list in
  buf.

Definition NewPeggyDenomFromString (denom : string) : result PeggyDenom :=
  let fullPrefix := PeggyDenomPrefix ++ PeggyDenomSeparator in
  if negb (strings.HasPrefix denom fullPrefix) then
    Err (StringPrefixMismatch denom fullPrefix)
  else
    let addressHex := strings.TrimPrefix denom fullPrefix in
    match ValidateEthAddress addressHex with
    | Some err => Err err
    | None => Ok (NewPeggyDenom (common.HexToAddress addressHex))
    end.

Definition ValidateBasic (e : ptr) : M (option error) :=
  t <- load e ;;
  match ValidateEthAddress (Contract t) with
  | Some err => ret (Some (Wrap err "ethereum address"))
  | None =>
      c <- PeggyCoin e ;;
      if negb (sdk.IsValid c) then
        c' <- PeggyCoin e ;;
        ret (Some (Wrap ErrInvalidCoins (sdk.Coin_String c')))
      else
        c <- PeggyCoin e ;;
        if negb (sdk.IsPositive c) then
          c' <- PeggyCoin e ;;
          ret (Some (Wrap ErrInvalidCoins (sdk.Coin_String c')))
        else ret None
  end.

Definition Add (e o : ptr) : M (result ptr) :=
  te <- load e ;;
  to <- load o ;;
  if negb (String.eqb (Contract te) (Contract to)) then
    ret (Err InvalidContractAddress)
  else
    sum <- lift (sdk.Add (Amount te) (Amount to)) ;;
    if negb (sdk.IsUint64 sum) then ret (Err InvalidAmount)
    else
      n <- lift (sdk.Uint64 sum) ;;
      p <- NewERC20Token n (common.HexToAddress (Contract te)) ;;
      ret (Ok p).

End Peggy.

(** ** Vocabulary of the statements *)

(** A contract address is valid when it has the 20 bytes of the array. *)
Definition valid_address (a : common.Address) : Prop :=
  List.length a = common.AddressLength.

(** Byte-lexicographic order as the specification words it: the first
    differing byte decides, and a proper prefix comes first. *)
Inductive lex_lt : list byte -> list byte -> Prop :=
| lex_lt_nil (y : byte) (ys : list byte) : lex_lt [] (y :: ys)
| lex_lt_head (x y : byte) (xs ys : list byte) :
    (Byte.to_N x < Byte.to_N y)%N -> lex_lt (x :: xs) (y :: ys)
| lex_lt_tail (x : byte) (xs ys : list byte) :
    lex_lt xs ys -> lex_lt (x :: xs) (x :: ys).

(** ASCII lower case, to compare hexadecimal strings up to case. *)
Definition toLower (c : ascii) : ascii :=
  let n := N_of_ascii c in
  if ((65 <=? n) && (n <=? 90))%N then ascii_of_N (n + 32) else c.

Fixpoint lower (s : string) : string :=
  match s with
  | EmptyString => EmptyString
  | String c rest => String (toLower c) (lower rest)
  end.

(** The hexadecimal digits of an address string, without the optional
    [0x] or [0X]. *)
Definition hexDigits (s : string) : string :=
  if common.has0xPrefix s then strings.drop 2 s else s.

(** The characters [hex.EncodeToString] writes: digits and [a]..[f]. *)
Definition lowerHexChar (c : ascii) : bool :=
  let n := N_of_ascii c in
  ((48 <=? n) && (n <=? 57) || (97 <=? n) && (n <=? 102))%N.

Fixpoint allLowerHex (s : string) : bool :=
  match s with
  | EmptyString => true
  | String c rest => lowerHexChar c && allLowerHex rest
  end.

(** A hexadecimal character, as the specification means it. *)
Definition hex_digit (c : ascii) : Prop :=
  In c (list_ascii_of_string "0123456789abcdefABCDEF").

(** A module name after which every rendered address still matches the
    coin-denomination expression: a letter, then letters, digits or [/],
    short enough to leave room for the 42 characters of the address. *)
Definition denom_prefix (name : string) : bool :=
  match name with
  | EmptyString => false
  | String c rest =>
      sdk.isLetter c && sdk.allDenomChars rest
      && (String.length rest + 42 <=? 127)%nat
  end.

(** Running a computation on a heap. *)
Definition run {A} (m : M A) (h : heap) : outcome (A * heap) := m h.

(** The token a pointer refers to, if any. *)
Definition deref (h : heap) (p : ptr) : option ERC20Token := nth_error h p.

(** * Proofs *)

(** ** The model on known values *)

Example Keccak256_empty :
  hex.EncodeToString (Keccak.Keccak256 [])
  = "c5d2460186f7233c927e7db2dcc703c0e500b653ca82273b7bfad8045d85a470".
Proof. vm_compute. reflexivity. Qed.

Example Hex_eip55 :
  map (fun s => common.Hex (common.HexToAddress s))
    ["0x5aaeb6053f3e94c9b9a09f33669435e7ef1beaed";
     "0XFB6916095CA1DF60BB79CE92CE3EA74C37C5D359";
     "dbf03b407c01e7cd3cbea99509d93f8dddc8c6fb";
     "0xD1220A0cf47c7B9Be7A2E6BA89F429762e7b9aDb"]
  = ["0x5aAeb6053F3E94C9b9A09f33669435E7Ef1BeAed";
     "0xfB6916095ca1df60bB79Ce92cE3Ea74c37c5d359";
     "0xdbF03B407c01E7cD3CBea99509d93f8DDDC8C6FB";
     "0xD1220A0cf47c7B9Be7A2E6BA89F429762e7b9aDb"].
Proof. vm_compute. reflexivity. Qed.

Example HexToAddress_lossy :
  map (fun s => hex.EncodeToString (common.HexToAddress s))
    ["not-an-address"; "0x123"; ""]
  = ["0000000000000000000000000000000000000000";
     "0000000000000000000000000000000000000123";
     "0000000000000000000000000000000000000000"].
Proof. vm_compute. reflexivity. Qed.

Example PeggyDenom_String_placeholder :
  PeggyDenom_String "peggy" (list_byte_of_string "peggyabc")
  = "7065676779616263(error: failed to validate Ethereum address bytes: 616263)".
Proof. vm_compute. reflexivity. Qed.

(** ** Small facts about strings and byte lists *)

Lemma string_length_append (s t : string) :
  String.length (s ++ t) = (String.length s + String.length t)%nat.
Proof. induction s as [|c s IH]; simpl; [reflexivity | now rewrite IH]. Qed.

Lemma string_append_nil_r (s : string) : s ++ "" = s.
Proof. induction s as [|c s IH]; simpl; [reflexivity | now rewrite IH]. Qed.

Lemma string_append_assoc (s t u : string) : (s ++ t) ++ u = s ++ (t ++ u).
Proof. induction s as [|c s IH]; simpl; [reflexivity | now rewrite IH]. Qed.

Lemma list_byte_of_string_cons (c : ascii) (s : string) :
  list_byte_of_string (String c s) = byte_of_ascii c :: list_byte_of_string s.
Proof. reflexivity. Qed.

Lemma list_byte_of_string_app (s t : string) :
  list_byte_of_string (s ++ t) = (list_byte_of_string s ++ list_byte_of_string t)%list.
Proof.
  induction s as [|c s IH]; [reflexivity|].
  simpl String.append. rewrite !list_byte_of_string_cons, IH. reflexivity.
Qed.

Lemma list_byte_of_string_length (s : string) :
  List.length (list_byte_of_string s) = String.length s.
Proof.
  induction s as [|c s IH]; [reflexivity|].
  rewrite list_byte_of_string_cons. simpl. now rewrite IH.
Qed.

Lemma string_drop_app (p s : string) : strings.drop (String.length p) (p ++ s) = s.
Proof. induction p as [|c p IH]; simpl; [now destruct s | exact IH]. Qed.

Lemma string_substring_app (p s : string) :
  substring 0 (String.length p) (p ++ s) = p.
Proof.
  induction p as [|c p IH]; simpl; [now destruct s | now rewrite IH].
Qed.

(** ** [bytes] and [strings] *)

Lemma bytes_Equal_refl (a : list byte) : bytes.Equal a a = true.
Proof.
  induction a as [|x a IH]; simpl; [reflexivity|].
  rewrite IH, (Byte.byte_dec_lb (x:=x) (y:=x) eq_refl). reflexivity.
Qed.

Lemma bytes_Equal_eq (a b : list byte) : bytes.Equal a b = true -> a = b.
Proof.
  revert b; induction a as [|x a IH]; intros [|y b]; simpl; try discriminate;
    [reflexivity|].
  intros H. apply andb_true_iff in H as [Hxy Hab].
  apply Byte.byte_dec_bl in Hxy. subst. f_equal. now apply IH.
Qed.

Lemma firstn_length_app {A} (p s : list A) : firstn (List.length p) (p ++ s) = p.
Proof. induction p as [|x p IH]; simpl; [reflexivity | now rewrite IH]. Qed.

Lemma skipn_length_app {A} (p s : list A) : skipn (List.length p) (p ++ s) = s.
Proof. induction p as [|x p IH]; simpl; [reflexivity | exact IH]. Qed.

Lemma bytes_HasPrefix_app (p s : list byte) : bytes.HasPrefix (p ++ s) p = true.
Proof.
  unfold bytes.HasPrefix. rewrite firstn_length_app, bytes_Equal_refl, andb_true_r.
  apply Nat.leb_le. rewrite length_app. lia.
Qed.

Lemma bytes_HasPrefix_inv (s p : list byte) :
  bytes.HasPrefix s p = true -> exists r, s = (p ++ r)%list.
Proof.
  unfold bytes.HasPrefix. intros H. apply andb_true_iff in H as [_ H].
  apply bytes_Equal_eq in H. exists (skipn (List.length p) s).
  rewrite <- H at 1. symmetry. apply firstn_skipn.
Qed.

Lemma bytes_HasPrefix_short (s p : list byte) :
  (List.length s < List.length p)%nat -> bytes.HasPrefix s p = false.
Proof.
  intros H. unfold bytes.HasPrefix.
  replace (List.length p <=? List.length s)%nat with false; [reflexivity|].
  symmetry. apply Nat.leb_gt. exact H.
Qed.

Lemma bytes_TrimPrefix_app (p s : list byte) : bytes.TrimPrefix (p ++ s) p = s.
Proof.
  unfold bytes.TrimPrefix. rewrite bytes_HasPrefix_app. apply skipn_length_app.
Qed.

Lemma strings_HasPrefix_app (p s : string) : strings.HasPrefix (p ++ s) p = true.
Proof.
  unfold strings.HasPrefix.
  rewrite string_substring_app, String.eqb_refl, andb_true_r.
  apply Nat.leb_le. rewrite string_length_append. lia.
Qed.

Lemma strings_TrimPrefix_app (p s : string) : strings.TrimPrefix (p ++ s) p = s.
Proof.
  unfold strings.TrimPrefix. rewrite strings_HasPrefix_app. apply string_drop_app.
Qed.

Lemma BytesToAddress_id (a : list byte) :
  valid_address a -> common.BytesToAddress a = a.
Proof.
  unfold valid_address, common.BytesToAddress. intros Ha. rewrite Ha.
  rewrite Nat.ltb_irrefl, Ha, Nat.sub_diag. reflexivity.
Qed.

Lemma BytesToAddress_length (b : list byte) :
  valid_address (common.BytesToAddress b).
Proof.
  unfold valid_address, common.BytesToAddress, common.AddressLength.
  destruct (20 <? List.length b)%nat eqn:E.
  - apply Nat.ltb_lt in E. rewrite length_app, repeat_length, length_skipn. lia.
  - apply Nat.ltb_ge in E. rewrite length_app, repeat_length. lia.
Qed.

(** ** Hexadecimal text: [encoding/hex] and [common] *)

Ltac ascii_cases c :=
  destruct c as [[] [] [] [] [] [] [] []].

Lemma string_ind2 (P : string -> Prop) :
  P EmptyString ->
  (forall c, P (String c EmptyString)) ->
  (forall c c' s, P s -> P (String c (String c' s))) ->
  forall s, P s.
Proof.
  intros H0 H1 H2.
  fix IH 1. intros [|c [|c' s]]; [exact H0 | apply H1 | apply H2, IH].
Qed.

Lemma fromHexChar_toLower (c : ascii) :
  hex.fromHexChar (toLower c) = hex.fromHexChar c.
Proof. ascii_cases c; reflexivity. Qed.

Lemma isHexCharacter_toLower (c : ascii) :
  common.isHexCharacter (toLower c) = common.isHexCharacter c.
Proof. ascii_cases c; reflexivity. Qed.

Lemma fromHexChar_hex (c : ascii) :
  common.isHexCharacter c = true ->
  exists n, hex.fromHexChar c = Some n /\ (n < 16)%N /\ hex.digit n = toLower c.
Proof.
  ascii_cases c; vm_compute; intros H; try discriminate H;
    eexists; (split; [reflexivity | split; reflexivity]).
Qed.

Lemma nibbles_byte (a b : N) :
  (a < 16)%N -> (b < 16)%N ->
  let v := Byte.to_N (hex.byte_of_N (N.lor (N.shiftl a 4) b)) in
  N.shiftr v 4 = a /\ N.land v 15 = b.
Proof.
  intros Ha Hb.
  assert (Ea : In a (map N.of_nat (seq 0 16))).
  { replace a with (N.of_nat (N.to_nat a)) by apply N2Nat.id.
    apply in_map, in_seq. lia. }
  assert (Eb : In b (map N.of_nat (seq 0 16))).
  { replace b with (N.of_nat (N.to_nat b)) by apply N2Nat.id.
    apply in_map, in_seq. lia. }
  simpl in Ea, Eb.
  repeat (destruct Ea as [<-|Ea]; [|]); try contradiction;
  repeat (destruct Eb as [<-|Eb]; [|]); try contradiction; split; reflexivity.
Qed.

Lemma lower_append (s t : string) : lower (s ++ t) = lower s ++ lower t.
Proof. induction s as [|c s IH]; simpl; [reflexivity | now rewrite IH]. Qed.

Lemma lower_length (s : string) : String.length (lower s) = String.length s.
Proof. induction s as [|c s IH]; simpl; [reflexivity | now rewrite IH]. Qed.

Lemma Decode_lower (s : string) : hex.Decode (lower s) = hex.Decode s.
Proof.
  induction s as [| c | c c' s IH] using string_ind2; [reflexivity .. |].
  cbn [lower hex.Decode]. rewrite !fromHexChar_toLower, IH. reflexivity.
Qed.

Lemma allHex_lower (s : string) : common.allHex (lower s) = common.allHex s.
Proof.
  induction s as [|c s IH]; simpl; [reflexivity|].
  now rewrite isHexCharacter_toLower, IH.
Qed.

Lemma encode_byte (v : byte) :
  let hi := hex.digit (N.shiftr (Byte.to_N v) 4) in
  let lo := hex.digit (N.land (Byte.to_N v) 15) in
  hex.fromHexChar hi = Some (N.shiftr (Byte.to_N v) 4)
  /\ hex.fromHexChar lo = Some (N.land (Byte.to_N v) 15)
  /\ hex.byte_of_N (N.lor (N.shiftl (N.shiftr (Byte.to_N v) 4) 4)
                          (N.land (Byte.to_N v) 15)) = v
  /\ lowerHexChar hi = true /\ lowerHexChar lo = true.
Proof. destruct v; repeat split; reflexivity. Qed.

Lemma EncodeToString_length (a : list byte) :
  String.length (hex.EncodeToString a) = (2 * List.length a)%nat.
Proof. induction a as [|v a IH]; simpl; [reflexivity | rewrite IH; lia]. Qed.

Lemma EncodeToString_lowerHex (a : list byte) :
  allLowerHex (hex.EncodeToString a) = true.
Proof.
  induction a as [|v a IH]; [reflexivity|].
  destruct (encode_byte v) as (_ & _ & _ & Hhi & Hlo).
  cbn [hex.EncodeToString allLowerHex]. now rewrite Hhi, Hlo, IH.
Qed.

Lemma Decode_EncodeToString (a : list byte) :
  hex.Decode (hex.EncodeToString a) = (a, false).
Proof.
  induction a as [|v a IH]; [reflexivity|].
  destruct (encode_byte v) as (Hhi & Hlo & Hv & _).
  cbn [hex.EncodeToString hex.Decode]. now rewrite Hhi, Hlo, IH, Hv.
Qed.

Lemma EncodeToString_Decode (s : string) :
  (String.length s mod 2 = 0)%nat -> common.allHex s = true ->
  hex.EncodeToString (fst (hex.Decode s)) = lower s
  /\ List.length (fst (hex.Decode s)) = (String.length s / 2)%nat.
Proof.
  induction s as [| c | c c' s IH] using string_ind2.
  - intros _ _. split; reflexivity.
  - intros H. discriminate H.
  - intros Hlen Hhex. cbn [common.allHex] in Hhex.
    destruct (common.isHexCharacter c) eqn:Hc; [|discriminate].
    destruct (common.isHexCharacter c') eqn:Hc'; [|discriminate].
    destruct (fromHexChar_hex c Hc) as (a & Ea & La & Da).
    destruct (fromHexChar_hex c' Hc') as (b & Eb & Lb & Db).
    assert (Hlen' : (String.length s mod 2 = 0)%nat).
    { cbn [String.length] in Hlen.
      replace (S (S (String.length s))) with (String.length s + 1 * 2)%nat in Hlen by lia.
      now rewrite Nat.Div0.mod_add in Hlen. }
    destruct (IH Hlen' Hhex) as [IH1 IH2].
    cbn [hex.Decode lower]. rewrite Ea, Eb.
    destruct (hex.Decode s) as [out err]. cbn [fst] in *.
    destruct (nibbles_byte a b La Lb) as [Hhi Hlo].
    cbn [hex.EncodeToString List.length String.length]. cbv zeta in Hhi, Hlo.
    rewrite Hhi, Hlo, Da, Db, IH1, IH2. split; [reflexivity|].
    replace (S (S (String.length s))) with (String.length s + 1 * 2)%nat by lia.
    rewrite Nat.div_add by lia. lia.
Qed.

Lemma toLower_lowerHex (c : ascii) : lowerHexChar c = true -> toLower c = c.
Proof. ascii_cases c; intros H; try discriminate H; reflexivity. Qed.

Lemma toLower_upcased (c : ascii) :
  lowerHexChar c = true -> (57 <? N_of_ascii c)%N = true ->
  toLower (ascii_of_N (N_of_ascii c - 32)) = c.
Proof.
  ascii_cases c; intros H H'; try discriminate H; try discriminate H'; reflexivity.
Qed.

Lemma checksum_char (c : ascii) (b : bool) :
  lowerHexChar c = true ->
  toLower (if ((57 <? N_of_ascii c)%N && b) then ascii_of_N (N_of_ascii c - 32) else c) = c.
Proof.
  intros H. destruct (57 <? N_of_ascii c)%N eqn:E; [destruct b|]; cbn [andb].
  - now apply toLower_upcased.
  - now apply toLower_lowerHex.
  - now apply toLower_lowerHex.
Qed.

Lemma lower_checksum (hash : list byte) (s : string) (i : nat) :
  allLowerHex s = true -> lower (common.checksum hash i s) = s.
Proof.
  revert i. induction s as [|c s IH]; intros i H; [reflexivity|].
  cbn [allLowerHex] in H. apply andb_true_iff in H as [Hc Hs].
  cbn [common.checksum lower]. cbv zeta.
  rewrite (checksum_char c _ Hc), (IH _ Hs). reflexivity.
Qed.

Lemma checksum_length (hash : list byte) (s : string) (i : nat) :
  String.length (common.checksum hash i s) = String.length s.
Proof. revert i; induction s as [|c s IH]; intros i; simpl; [reflexivity | now rewrite IH]. Qed.

Lemma allLowerHex_allHex (s : string) : allLowerHex s = true -> common.allHex s = true.
Proof.
  induction s as [|c s IH]; [reflexivity|]. cbn [allLowerHex common.allHex].
  intros H. apply andb_true_iff in H as [Hc Hs].
  replace (common.isHexCharacter c) with true; [now apply IH|].
  symmetry. revert Hc. unfold lowerHexChar, common.isHexCharacter. cbv zeta.
  intros ->. reflexivity.
Qed.

Lemma isDenomChar_toLower (c : ascii) : sdk.isDenomChar (toLower c) = sdk.isDenomChar c.
Proof. ascii_cases c; reflexivity. Qed.

Lemma allDenomChars_lower (s : string) : sdk.allDenomChars (lower s) = sdk.allDenomChars s.
Proof.
  induction s as [|c s IH]; simpl; [reflexivity|].
  now rewrite isDenomChar_toLower, IH.
Qed.

Lemma lowerHexChar_isDenomChar (c : ascii) : lowerHexChar c = true -> sdk.isDenomChar c = true.
Proof. ascii_cases c; intros H; try discriminate H; reflexivity. Qed.

Lemma allLowerHex_allDenomChars (s : string) :
  allLowerHex s = true -> sdk.allDenomChars s = true.
Proof.
  induction s as [|c s IH]; [reflexivity|]. cbn [allLowerHex sdk.allDenomChars].
  intros H. apply andb_true_iff in H as [Hc Hs].
  now rewrite (lowerHexChar_isDenomChar c Hc), IH.
Qed.

Lemma allDenomChars_append (s t : string) :
  sdk.allDenomChars (s ++ t) = sdk.allDenomChars s && sdk.allDenomChars t.
Proof.
  induction s as [|c s IH]; [reflexivity|].
  cbn [String.append sdk.allDenomChars]. now rewrite IH, andb_assoc.
Qed.

(** The shape of [Address.Hex]. *)
Lemma Hex_shape (a : common.Address) :
  exists cs, common.Hex a = String "0" (String "x" cs)
             /\ lower cs = hex.EncodeToString a
             /\ String.length cs = (2 * List.length a)%nat.
Proof.
  eexists. split; [reflexivity|]. split.
  - apply lower_checksum, EncodeToString_lowerHex.
  - now rewrite checksum_length, EncodeToString_length.
Qed.

Lemma even_length_mod (n : nat) : ((2 * n) mod 2 =? 1)%nat = false.
Proof. rewrite Nat.mul_comm, Nat.Div0.mod_mul. reflexivity. Qed.

Lemma FromHex_Hex (a : common.Address) : common.FromHex (common.Hex a) = a.
Proof.
  destruct (Hex_shape a) as (cs & -> & Hlow & Hlen).
  unfold common.FromHex. cbn [common.has0xPrefix strings.drop].
  replace (("0" =? "0")%char && (("x" =? "x")%char || ("x" =? "X")%char)) with true
    by reflexivity.
  rewrite Hlen, even_length_mod. unfold common.Hex2Bytes.
  now rewrite <- Decode_lower, Hlow, Decode_EncodeToString.
Qed.

Lemma HexToAddress_Hex (a : common.Address) :
  valid_address a -> common.HexToAddress (common.Hex a) = a.
Proof.
  intros Ha. unfold common.HexToAddress. rewrite FromHex_Hex.
  now apply BytesToAddress_id.
Qed.

Lemma IsHexAddress_Hex (a : common.Address) :
  valid_address a -> common.IsHexAddress (common.Hex a) = true.
Proof.
  intros Ha. destruct (Hex_shape a) as (cs & -> & Hlow & Hlen).
  unfold common.IsHexAddress. cbn [common.has0xPrefix strings.drop].
  replace (("0" =? "0")%char && (("x" =? "x")%char || ("x" =? "X")%char)) with true
    by reflexivity.
  unfold valid_address in Ha. rewrite Hlen, Ha. cbn [Nat.eqb andb].
  replace (2 * common.AddressLength =? 2 * common.AddressLength)%nat with true
    by (symmetry; apply Nat.eqb_refl).
  unfold common.isHex. rewrite Hlen, Ha.
  replace (negb ((2 * common.AddressLength) mod 2 =? 0)%nat) with false by reflexivity.
  rewrite <- allHex_lower, Hlow.
  apply allLowerHex_allHex, EncodeToString_lowerHex.
Qed.

Lemma IsHexAddress_inv (s : string) :
  common.IsHexAddress s = true ->
  String.length (hexDigits s) = 40%nat /\ common.allHex (hexDigits s) = true.
Proof.
  unfold common.IsHexAddress, hexDigits. cbv zeta.
  set (d := if common.has0xPrefix s then strings.drop 2 s else s).
  intros H. apply andb_true_iff in H as [Hlen Hhex].
  apply Nat.eqb_eq in Hlen. split; [exact Hlen|].
  unfold common.isHex in Hhex. rewrite Hlen in Hhex. exact Hhex.
Qed.

Lemma HexToAddress_valid (s : string) :
  common.IsHexAddress s = true ->
  common.HexToAddress s = fst (hex.Decode (hexDigits s))
  /\ hex.EncodeToString (common.HexToAddress s) = lower (hexDigits s).
Proof.
  intros H. destruct (IsHexAddress_inv s H) as [Hlen Hhex].
  assert (Hfrom : common.FromHex s = fst (hex.Decode (hexDigits s))).
  { unfold common.FromHex. fold (hexDigits s). cbv zeta. now rewrite Hlen. }
  destruct (EncodeToString_Decode (hexDigits s)) as [Henc Hl];
    [now rewrite Hlen | exact Hhex |].
  unfold common.HexToAddress. rewrite Hfrom, BytesToAddress_id.
  - now split.
  - unfold valid_address. now rewrite Hl, Hlen.
Qed.

Lemma HexToAddress_length (s : string) : valid_address (common.HexToAddress s).
Proof. apply BytesToAddress_length. Qed.

Lemma Hex_HexToAddress_lower (s : string) :
  common.IsHexAddress s = true ->
  lower (common.Hex (common.HexToAddress s)) = "0x" ++ lower (hexDigits s).
Proof.
  intros H. destruct (HexToAddress_valid s H) as [_ Henc].
  destruct (Hex_shape (common.HexToAddress s)) as (cs & -> & Hlow & _).
  cbn [lower]. rewrite Hlow, Henc. reflexivity.
Qed.

Lemma has0xPrefix_lower (s : string) :
  common.has0xPrefix s = true -> lower s = "0x" ++ lower (hexDigits s).
Proof.
  unfold hexDigits. intros H. rewrite H.
  destruct s as [|c0 [|c1 s]]; try discriminate H.
  cbn [common.has0xPrefix] in H. apply andb_true_iff in H as [H0 H1].
  apply Ascii.eqb_eq in H0. subst c0.
  apply orb_true_iff in H1 as [H1|H1]; apply Ascii.eqb_eq in H1; subst c1; reflexivity.
Qed.

(** ** [ValidateEthAddress] *)

Lemma hex_digit_isHexCharacter (c : ascii) :
  hex_digit c -> common.isHexCharacter c = true.
Proof.
  unfold hex_digit. cbn [list_ascii_of_string In]. intros H.
  repeat (destruct H as [<-|H]; [reflexivity|]). contradiction.
Qed.

Lemma isHexCharacter_hex_digit (c : ascii) :
  common.isHexCharacter c = true -> hex_digit c.
Proof.
  unfold hex_digit. cbn [list_ascii_of_string In].
  ascii_cases c; intros H; try discriminate H; tauto.
Qed.

Lemma Forall_hex_digit_allHex (s : string) :
  Forall hex_digit (list_ascii_of_string s) -> common.allHex s = true.
Proof.
  induction s as [|c s IH]; [reflexivity|]. cbn [list_ascii_of_string common.allHex].
  intros H. inversion H as [|? ? Hc Hs]; subst.
  rewrite (hex_digit_isHexCharacter c Hc). now apply IH.
Qed.

Lemma allHex_Forall_hex_digit (s : string) :
  common.allHex s = true -> Forall hex_digit (list_ascii_of_string s).
Proof.
  induction s as [|c s IH]; [constructor|]. cbn [list_ascii_of_string common.allHex].
  destruct (common.isHexCharacter c) eqn:Hc; [|discriminate].
  intros H. constructor; [now apply isHexCharacter_hex_digit | now apply IH].
Qed.

Lemma ValidateEthAddress_None (s : string) :
  ValidateEthAddress s = None <-> common.IsHexAddress s = true.
Proof.
  unfold ValidateEthAddress. destruct (String.eqb_spec s "") as [->|Hne].
  - split; discriminate.
  - destruct (common.IsHexAddress s); split; intros H; try discriminate; reflexivity.
Qed.

Lemma ValidateEthAddress_Hex (a : common.Address) :
  valid_address a -> ValidateEthAddress (common.Hex a) = None.
Proof. intros Ha. now apply ValidateEthAddress_None, IsHexAddress_Hex. Qed.

(** C6. The empty string is refused as empty, ["not-an-address"] is refused
    as malformed, and [0x] followed by 40 hexadecimal characters is
    accepted. *)
Theorem ValidateEthAddress_cases :
  ValidateEthAddress "" = Some EmptyAddress
  /\ ValidateEthAddress "not-an-address" = Some (NotValidAddress "not-an-address")
  /\ forall digits : string,
       String.length digits = 40%nat ->
       Forall hex_digit (list_ascii_of_string digits) ->
       ValidateEthAddress ("0x" ++ digits) = None.
Proof.
  split; [reflexivity | split; [reflexivity|]].
  intros digits Hlen Hhex. apply ValidateEthAddress_None.
  unfold common.IsHexAddress. cbn [String.append common.has0xPrefix strings.drop].
  replace (("0" =? "0")%char && (("x" =? "x")%char || ("x" =? "X")%char)) with true
    by reflexivity.
  unfold common.isHex. rewrite Hlen. cbn [Nat.eqb andb].
  replace (40 =? 2 * common.AddressLength)%nat with true by reflexivity.
  replace (negb (40 mod 2 =? 0)%nat) with false by reflexivity.
  now apply Forall_hex_digit_allHex.
Qed.

Lemma ValidateEthAddress_cases_witness :
  ValidateEthAddress "0x5aAeb6053F3E94C9b9A09f33669435E7Ef1BeAed" = None.
Proof.
  apply (proj2 (proj2 ValidateEthAddress_cases) "5aAeb6053F3E94C9b9A09f33669435E7Ef1BeAed").
  - reflexivity.
  - apply allHex_Forall_hex_digit. reflexivity.
Defined.

(** ** The byte codec: [NewPeggyDenom] and [TokenContract] *)

Section Codec.

Variable ModuleName : string.

Local Abbreviation fullPrefix :=
  (list_byte_of_string (PeggyDenomPrefix ModuleName ++ PeggyDenomSeparator)).

Lemma NewPeggyDenom_eq (a : common.Address) :
  NewPeggyDenom ModuleName a = (fullPrefix ++ a)%list.
Proof. reflexivity. Qed.

Lemma TokenContract_prefixed (r : list byte) :
  TokenContract ModuleName (fullPrefix ++ r)%list =
  if (List.length r =? ETHContractAddressLen)%nat
  then Ok (common.BytesToAddress r) else Err (BadAddressBytes r).
Proof.
  unfold TokenContract.
  rewrite bytes_HasPrefix_app, bytes_TrimPrefix_app. simpl negb.
  now destruct (List.length r =? ETHContractAddressLen)%nat.
Qed.

Lemma TokenContract_prefixed_address (a : common.Address) :
  valid_address a -> TokenContract ModuleName (fullPrefix ++ a)%list = Ok a.
Proof.
  intros Ha. rewrite TokenContract_prefixed, (BytesToAddress_id a Ha).
  unfold valid_address in Ha. rewrite Ha. reflexivity.
Qed.

Lemma NewPeggyDenomFromString_prefixed (s : string) :
  ValidateEthAddress s = None ->
  NewPeggyDenomFromString ModuleName
    ((PeggyDenomPrefix ModuleName ++ PeggyDenomSeparator) ++ s)
  = Ok (NewPeggyDenom ModuleName (common.HexToAddress s)).
Proof.
  intros Hs. unfold NewPeggyDenomFromString.
  rewrite strings_HasPrefix_app, strings_TrimPrefix_app. cbn [negb].
  now rewrite Hs.
Qed.

(** C1. Decoding the denomination made from a 20-byte contract address
    succeeds and gives back that address:
    [TokenContract (NewPeggyDenom a) = a]. *)
Theorem TokenContract_NewPeggyDenom (a : common.Address) :
  valid_address a ->
  TokenContract ModuleName (NewPeggyDenom ModuleName a) = Ok a.
Proof.
  intros Ha. unfold NewPeggyDenom, common.Bytes. cbn [app].
  unfold TokenContract.
  rewrite bytes_HasPrefix_app, bytes_TrimPrefix_app. cbn [negb].
  pose proof Ha as Hlen. unfold valid_address, common.AddressLength in Hlen.
  rewrite Hlen. cbn [Nat.eqb negb ETHContractAddressLen].
  now rewrite BytesToAddress_id.
Qed.

(** C4. A byte string that does not begin with the prefix and separator,
    and so every byte string shorter than the two together, is refused
    with the prefix error; a byte string that begins with them and goes
    on with anything but 20 bytes is refused with the address-length
    error. *)
Theorem TokenContract_rejects (d : list byte) :
  ((forall r, d <> (fullPrefix ++ r)%list) ->
   TokenContract ModuleName d = Err (BytePrefixMismatch d fullPrefix))
  /\ ((List.length d <
       String.length (PeggyDenomPrefix ModuleName) + String.length PeggyDenomSeparator)%nat ->
      TokenContract ModuleName d = Err (BytePrefixMismatch d fullPrefix))
  /\ (forall r, d = (fullPrefix ++ r)%list ->
      List.length r <> ETHContractAddressLen ->
      TokenContract ModuleName d = Err (BadAddressBytes r)).
Proof.
  assert (Hno : bytes.HasPrefix d fullPrefix = false ->
                TokenContract ModuleName d = Err (BytePrefixMismatch d fullPrefix)).
  { intros H. unfold TokenContract. now rewrite H. }
  split; [|split].
  - intros Hd. apply Hno. destruct (bytes.HasPrefix d fullPrefix) eqn:E; [|reflexivity].
    apply bytes_HasPrefix_inv in E as [r Hr]. now elim (Hd r).
  - intros Hlen. apply Hno, bytes_HasPrefix_short.
    rewrite list_byte_of_string_length, string_length_append.
    exact Hlen.
  - intros r -> Hr. rewrite TokenContract_prefixed.
    apply Nat.eqb_neq in Hr. now rewrite Hr.
Qed.

(** C5. For an address string [s] that passes [ValidateEthAddress], the
    denomination string made of the prefix, the separator and [s] decodes
    to the byte denomination of the parsed address, not to the text that
    came in; rendering that denomination gives the prefix followed by the
    EIP-55 form of the address, which is [s] up to the case of its
    letters, with [0x] in front of its digits. *)
Theorem NewPeggyDenomFromString_canonical (s : string) :
  ValidateEthAddress s = None ->
  let a := common.HexToAddress s in
  NewPeggyDenomFromString ModuleName
    ((PeggyDenomPrefix ModuleName ++ PeggyDenomSeparator) ++ s)
  = Ok (NewPeggyDenom ModuleName a)
  /\ PeggyDenom_String ModuleName (NewPeggyDenom ModuleName a)
     = PeggyDenomPrefix ModuleName ++ PeggyDenomSeparator ++ common.Hex a
  /\ lower (common.Hex a) = "0x" ++ lower (hexDigits s)
  /\ (common.has0xPrefix s = true -> lower (common.Hex a) = lower s)
  /\ common.Hex (common.HexToAddress (common.Hex a)) = common.Hex a.
Proof.
  intros Hs a. assert (Ha : valid_address a) by apply HexToAddress_length.
  split; [|split; [|split; [|split]]].
  - now apply NewPeggyDenomFromString_prefixed.
  - unfold PeggyDenom_String.
    now rewrite NewPeggyDenom_eq, (TokenContract_prefixed_address a Ha).
  - apply Hex_HexToAddress_lower. now apply ValidateEthAddress_None.
  - intros H0x. rewrite (has0xPrefix_lower s H0x).
    apply Hex_HexToAddress_lower. now apply ValidateEthAddress_None.
  - now rewrite (HexToAddress_Hex a Ha).
Qed.

End Codec.

Lemma TokenContract_NewPeggyDenom_witness :
  let a := common.HexToAddress "0x5aAeb6053F3E94C9b9A09f33669435E7Ef1BeAed" in
  valid_address a /\ TokenContract "peggy" (NewPeggyDenom "peggy" a) = Ok a.
Proof.
  intros a. split; [reflexivity|].
  apply (TokenContract_NewPeggyDenom "peggy" a). reflexivity.
Defined.

Lemma TokenContract_rejects_witness :
  TokenContract "peggy" (list_byte_of_string "peg")
  = Err (BytePrefixMismatch (list_byte_of_string "peg") (list_byte_of_string "peggy"))
  /\ TokenContract "peggy" (list_byte_of_string "peggy" ++ repeat x01 19)%list
     = Err (BadAddressBytes (repeat x01 19))
  /\ TokenContract "peggy" (list_byte_of_string "peggy" ++ repeat x01 21)%list
     = Err (BadAddressBytes (repeat x01 21)).
Proof.
  split; [|split].
  - apply (proj1 (proj2 (TokenContract_rejects "peggy" (list_byte_of_string "peg")))).
    simpl. lia.
  - apply (proj2 (proj2 (TokenContract_rejects "peggy" _)) (repeat x01 19));
      [reflexivity | simpl; unfold ETHContractAddressLen; lia].
  - apply (proj2 (proj2 (TokenContract_rejects "peggy" _)) (repeat x01 21));
      [reflexivity | simpl; unfold ETHContractAddressLen; lia].
Defined.

Lemma NewPeggyDenomFromString_canonical_witness :
  let s := "0x5aaeb6053f3e94c9b9a09f33669435e7ef1beaed" in
  ValidateEthAddress s = None
  /\ PeggyDenom_String "peggy" (NewPeggyDenom "peggy" (common.HexToAddress s))
     = "peggy0x5aAeb6053F3E94C9b9A09f33669435E7Ef1BeAed".
Proof.
  intros s. split; [reflexivity|].
  destruct (NewPeggyDenomFromString_canonical "peggy" s eq_refl) as (_ & H & _).
  rewrite H. vm_compute. reflexivity.
Defined.

(** ** The order on address strings: [EthAddrLessThan] *)

Lemma byte_to_N_inj (x y : byte) : Byte.to_N x = Byte.to_N y -> x = y.
Proof.
  intros H. assert (E : Some x = Some y).
  { rewrite <- (Byte.of_to_N x), <- (Byte.of_to_N y), H. reflexivity. }
  now inversion E.
Qed.

Lemma list_byte_of_string_inj (s t : string) :
  list_byte_of_string s = list_byte_of_string t -> s = t.
Proof.
  intros H. rewrite <- (string_of_list_byte_of_string s),
    <- (string_of_list_byte_of_string t), H. reflexivity.
Qed.

Lemma Compare_lt (a b : list byte) : bytes.Compare a b = -1 <-> lex_lt a b.
Proof.
  revert b. induction a as [|x a IH]; intros [|y b]; cbn [bytes.Compare].
  - split; [discriminate | intros H; inversion H].
  - split; [constructor | reflexivity].
  - split; [discriminate | intros H; inversion H].
  - destruct (Byte.to_N x <? Byte.to_N y)%N eqn:Exy.
    + apply N.ltb_lt in Exy. split; [now constructor | reflexivity].
    + apply N.ltb_ge in Exy. destruct (Byte.to_N y <? Byte.to_N x)%N eqn:Eyx.
      * apply N.ltb_lt in Eyx. split; [discriminate|].
        intros H; inversion H; subst; lia.
      * apply N.ltb_ge in Eyx.
        assert (x = y) by (apply byte_to_N_inj; lia). subst y.
        rewrite IH. split; [now constructor|].
        intros H; inversion H; subst; [lia | assumption].
Qed.

Lemma Compare_swap (a b : list byte) : bytes.Compare b a = - bytes.Compare a b.
Proof.
  revert b. induction a as [|x a IH]; intros [|y b]; cbn [bytes.Compare];
    try reflexivity.
  destruct (Byte.to_N x <? Byte.to_N y)%N eqn:Exy,
           (Byte.to_N y <? Byte.to_N x)%N eqn:Eyx; try reflexivity.
  - apply N.ltb_lt in Exy, Eyx. lia.
  - apply IH.
Qed.

Lemma Compare_range (a b : list byte) :
  bytes.Compare a b = -1 \/ bytes.Compare a b = 0 \/ bytes.Compare a b = 1.
Proof.
  revert b. induction a as [|x a IH]; intros [|y b]; cbn [bytes.Compare]; auto.
  destruct (Byte.to_N x <? Byte.to_N y)%N; auto.
  destruct (Byte.to_N y <? Byte.to_N x)%N; auto.
Qed.

Lemma Compare_eq (a b : list byte) : bytes.Compare a b = 0 -> a = b.
Proof.
  revert b. induction a as [|x a IH]; intros [|y b]; cbn [bytes.Compare];
    try discriminate; [reflexivity|].
  destruct (Byte.to_N x <? Byte.to_N y)%N eqn:Exy; [discriminate|].
  destruct (Byte.to_N y <? Byte.to_N x)%N eqn:Eyx; [discriminate|].
  apply N.ltb_ge in Exy, Eyx. intros H.
  f_equal; [apply byte_to_N_inj; lia | now apply IH].
Qed.

Lemma lex_lt_irrefl (a : list byte) : ~ lex_lt a a.
Proof.
  induction a as [|x a IH]; intros H; inversion H; subst; [lia | now apply IH].
Qed.

Lemma lex_lt_trans (a b c : list byte) : lex_lt a b -> lex_lt b c -> lex_lt a c.
Proof.
  intros Hab. revert c. induction Hab as [y ys | x y xs ys Hxy | x xs ys Hab IH];
    intros c Hbc; inversion Hbc; subst.
  - constructor.
  - constructor.
  - apply lex_lt_head. lia.
  - now apply lex_lt_head.
  - now apply lex_lt_head.
  - apply lex_lt_tail. now apply IH.
Qed.

Lemma EthAddrLessThan_lex_lt (e o : string) :
  EthAddrLessThan e o = true <->
  lex_lt (list_byte_of_string e) (list_byte_of_string o).
Proof.
  unfold EthAddrLessThan. rewrite Z.eqb_eq. apply Compare_lt.
Qed.

(** C8. The comparison is byte-lexicographic and a strict total order:
    when the bytes of [a1] come before those of [a2], [bytes.Compare]
    is negative on [(a1, a2)] and positive on [(a2, a1)], which
    [EthAddrLessThan] reports as [true] and [false]; the order is
    irreflexive, asymmetric and transitive, and any two distinct strings
    are ordered one way or the other. *)
Theorem EthAddrLessThan_strict_total_order (a1 a2 a3 : string) :
  (lex_lt (list_byte_of_string a1) (list_byte_of_string a2) ->
   bytes.Compare (list_byte_of_string a1) (list_byte_of_string a2) < 0
   /\ 0 < bytes.Compare (list_byte_of_string a2) (list_byte_of_string a1)
   /\ EthAddrLessThan a1 a2 = true
   /\ EthAddrLessThan a2 a1 = false)
  /\ EthAddrLessThan a1 a1 = false
  /\ (EthAddrLessThan a1 a2 = true -> EthAddrLessThan a2 a1 = false)
  /\ (EthAddrLessThan a1 a2 = true -> EthAddrLessThan a2 a3 = true ->
      EthAddrLessThan a1 a3 = true)
  /\ (a1 <> a2 -> EthAddrLessThan a1 a2 = true \/ EthAddrLessThan a2 a1 = true).
Proof.
  assert (Hasym : forall e o, EthAddrLessThan e o = true -> EthAddrLessThan o e = false).
  { intros e o H. unfold EthAddrLessThan in *. apply Z.eqb_eq in H.
    rewrite Compare_swap, H. reflexivity. }
  split; [|split; [|split; [|split]]].
  - intros Hlt. pose proof (proj2 (Compare_lt _ _) Hlt) as Hc.
    rewrite (Compare_swap (list_byte_of_string a1)), Hc.
    repeat split; try lia.
    + now apply EthAddrLessThan_lex_lt.
    + now apply Hasym, EthAddrLessThan_lex_lt.
  - destruct (EthAddrLessThan a1 a1) eqn:E; [|reflexivity].
    apply EthAddrLessThan_lex_lt in E. now apply lex_lt_irrefl in E.
  - apply Hasym.
  - rewrite !EthAddrLessThan_lex_lt. apply lex_lt_trans.
  - intros Hne. unfold EthAddrLessThan.
    rewrite (Compare_swap (list_byte_of_string a1)).
    destruct (Compare_range (list_byte_of_string a1) (list_byte_of_string a2))
      as [H|[H|H]]; rewrite H; auto.
    apply Compare_eq, list_byte_of_string_inj in H. contradiction.
Qed.

Lemma EthAddrLessThan_strict_total_order_witness :
  let a1 := "0x5aAeb6053F3E94C9b9A09f33669435E7Ef1BeAed" in
  let a2 := "0xfB6916095ca1df60bB79Ce92cE3Ea74c37c5d359" in
  EthAddrLessThan a1 a2 = true /\ EthAddrLessThan a2 a1 = false.
Proof.
  intros a1 a2.
  destruct (proj1 (EthAddrLessThan_strict_total_order a1 a2 a1)) as (_ & _ & H1 & H2).
  - apply Compare_lt. reflexivity.
  - split; assumption.
Defined.

(** ** Coins: [sdk.NewCoin] on peggy denominations *)

Lemma NewCoin_ok (denom : string) (amount : Z) :
  sdk.MatchDenom denom = true -> 0 <= amount ->
  sdk.NewCoin denom amount = Returned (sdk.mkCoin denom amount).
Proof.
  intros Hd Ha. unfold sdk.NewCoin, sdk.Validate, sdk.ValidateDenom, sdk.IsNegative.
  cbn [sdk.Denom sdk.Amount]. rewrite Hd. cbn [negb].
  replace (amount <? 0) with false; [reflexivity|].
  symmetry. apply Z.ltb_ge. exact Ha.
Qed.

Lemma NewCoin_negative (denom : string) (amount : Z) :
  amount < 0 -> exists msg, sdk.NewCoin denom amount = Panicked msg.
Proof.
  intros Ha. unfold sdk.NewCoin, sdk.Validate, sdk.ValidateDenom, sdk.IsNegative.
  cbn [sdk.Denom sdk.Amount].
  destruct (sdk.MatchDenom denom); cbn [negb]; [|eauto].
  replace (amount <? 0) with true; [eauto|].
  symmetry. apply Z.ltb_lt. exact Ha.
Qed.

Lemma NewCoin_returned (denom : string) (amount : Z) (c : sdk.Coin) :
  sdk.NewCoin denom amount = Returned c ->
  c = sdk.mkCoin denom amount /\ sdk.IsValid c = true /\ 0 <= amount.
Proof.
  unfold sdk.NewCoin, sdk.IsValid.
  destruct (sdk.Validate (sdk.mkCoin denom amount)) eqn:E; [discriminate|].
  intros H. inversion H; subst c. rewrite E. repeat split.
  unfold sdk.Validate, sdk.IsNegative in E. cbn [sdk.Denom sdk.Amount] in E.
  destruct (sdk.ValidateDenom denom); [discriminate|].
  destruct (amount <? 0) eqn:En; [discriminate|]. now apply Z.ltb_ge in En.
Qed.

Lemma Hex_allDenomChars (a : common.Address) :
  sdk.allDenomChars (common.Hex a) = true.
Proof.
  destruct (Hex_shape a) as (cs & -> & Hlow & _).
  cbn [sdk.allDenomChars]. rewrite <- allDenomChars_lower, Hlow.
  rewrite (allLowerHex_allDenomChars _ (EncodeToString_lowerHex a)). reflexivity.
Qed.

Lemma Hex_length (a : common.Address) :
  String.length (common.Hex a) = (2 + 2 * List.length a)%nat.
Proof.
  destruct (Hex_shape a) as (cs & -> & _ & Hlen). cbn [String.length].
  rewrite Hlen. reflexivity.
Qed.

Section Token.

Variable ModuleName : string.

Lemma PeggyDenomString_eq (a : common.Address) :
  PeggyDenomString ModuleName a
  = (PeggyDenomPrefix ModuleName ++ PeggyDenomSeparator) ++ common.Hex a.
Proof.
  unfold PeggyDenomString, PeggyDenomSeparator.
  now rewrite string_append_nil_r.
Qed.

Lemma MatchDenom_peggy (a : common.Address) :
  denom_prefix ModuleName = true -> valid_address a ->
  sdk.MatchDenom (PeggyDenomString ModuleName a) = true.
Proof.
  unfold denom_prefix, PeggyDenomString, PeggyDenomPrefix, PeggyDenomSeparator.
  destruct ModuleName as [|c rest]; [discriminate|]. intros H Ha.
  apply andb_true_iff in H as [H Hlen]. apply andb_true_iff in H as [Hc Hrest].
  apply Nat.leb_le in Hlen. unfold valid_address, common.AddressLength in Ha.
  cbn [String.append sdk.MatchDenom].
  rewrite Hc, allDenomChars_append, Hrest, Hex_allDenomChars.
  rewrite string_length_append, Hex_length, Ha. cbn [andb].
  rewrite andb_true_r.
  replace (2 <=? String.length rest + (2 + 2 * 20))%nat with true
    by (symmetry; apply Nat.leb_le; lia).
  apply Nat.leb_le. lia.
Qed.

Lemma run_PeggyCoin (h : heap) (e : ptr) (t : ERC20Token) :
  deref h e = Some t ->
  run (PeggyCoin ModuleName e) h =
  match sdk.NewCoin (PeggyDenomString ModuleName (common.HexToAddress (Contract t)))
                    (Amount t) with
  | Returned c => Returned (c, h)
  | Panicked msg => Panicked msg
  end.
Proof.
  unfold deref, run, PeggyCoin, bind, load, lift. intros ->. reflexivity.
Qed.

Lemma run_ValidateBasic (h : heap) (e : ptr) (t : ERC20Token) :
  deref h e = Some t ->
  run (ValidateBasic ModuleName e) h =
  match ValidateEthAddress (Contract t) with
  | Some err => Returned (Some (Wrap err "ethereum address"), h)
  | None =>
      match sdk.NewCoin (PeggyDenomString ModuleName (common.HexToAddress (Contract t)))
                        (Amount t) with
      | Panicked msg => Panicked msg
      | Returned c =>
          if negb (sdk.IsValid c)
          then Returned (Some (Wrap ErrInvalidCoins (sdk.Coin_String c)), h)
          else if negb (sdk.IsPositive c)
               then Returned (Some (Wrap ErrInvalidCoins (sdk.Coin_String c)), h)
               else Returned (None, h)
      end
  end.
Proof.
  intros Ht. pose proof (run_PeggyCoin h e t Ht) as Hc. unfold run in Hc.
  unfold run, ValidateBasic, bind at 1, load. unfold deref in Ht. rewrite Ht.
  destruct (ValidateEthAddress (Contract t)); [reflexivity|].
  unfold bind at 1. rewrite Hc.
  destruct (sdk.NewCoin _ (Amount t)) as [c|msg]; [|reflexivity].
  destruct (sdk.IsValid c); cbn [negb].
  - unfold bind at 1. rewrite Hc.
    destruct (sdk.IsPositive c); cbn [negb]; [reflexivity|].
    unfold bind, ret. rewrite Hc. reflexivity.
  - unfold bind, ret. rewrite Hc. reflexivity.
Qed.

End Token.

(** ** [PeggyCoin] and [ValidateBasic] *)

Section Validation.

Variable ModuleName : string.

(** C7. On a token whose contract string passes [ValidateEthAddress] and
    whose amount is zero, [ValidateBasic] returns the invalid-coins error;
    on a token whose contract string fails [ValidateEthAddress] it returns
    that failure wrapped as an address error; and it returns [nil] only if
    the contract string is valid and the coin of the token is valid and
    positive (and then it does). *)
Theorem ValidateBasic_gate (h : heap) (e : ptr) (t : ERC20Token) :
  denom_prefix ModuleName = true ->
  deref h e = Some t ->
  let coin :=
    sdk.mkCoin (PeggyDenomString ModuleName (common.HexToAddress (Contract t)))
               (Amount t) in
  (ValidateEthAddress (Contract t) = None -> Amount t = 0 ->
   run (ValidateBasic ModuleName e) h
   = Returned (Some (Wrap ErrInvalidCoins (sdk.Coin_String coin)), h))
  /\ (forall err, ValidateEthAddress (Contract t) = Some err ->
      run (ValidateBasic ModuleName e) h
      = Returned (Some (Wrap err "ethereum address"), h))
  /\ (forall h', run (ValidateBasic ModuleName e) h = Returned (None, h') ->
      ValidateEthAddress (Contract t) = None
      /\ run (PeggyCoin ModuleName e) h = Returned (coin, h)
      /\ sdk.IsValid coin = true /\ sdk.IsPositive coin = true
      /\ 0 < Amount t)
  /\ (ValidateEthAddress (Contract t) = None -> 0 < Amount t ->
      run (ValidateBasic ModuleName e) h = Returned (None, h)).
Proof.
  intros HM Ht coin.
  pose proof (run_ValidateBasic ModuleName h e t Ht) as Hrun.
  pose proof (run_PeggyCoin ModuleName h e t Ht) as Hcoin.
  pose proof (MatchDenom_peggy ModuleName _ HM (HexToAddress_length (Contract t))) as Hd.
  assert (Hpos : sdk.IsPositive coin = (0 <? Amount t)).
  { unfold sdk.IsPositive, sdk.Sign, coin. cbn [sdk.Amount].
    now destruct (Amount t). }
  split; [|split; [|split]].
  - intros Hv H0. rewrite Hrun, Hv, NewCoin_ok by (assumption || lia).
    fold coin. replace (sdk.IsValid coin) with true.
    + cbn [negb]. rewrite Hpos, H0. reflexivity.
    + symmetry. eapply NewCoin_returned. apply NewCoin_ok; [assumption | lia].
  - intros err Hv. now rewrite Hrun, Hv.
  - intros h' H. rewrite Hrun in H. rewrite Hcoin.
    destruct (ValidateEthAddress (Contract t)); [discriminate|].
    destruct (sdk.NewCoin _ (Amount t)) as [c|msg] eqn:Ec; [|discriminate].
    destruct (NewCoin_returned _ _ _ Ec) as (-> & Hvalid & _). fold coin in H, Hvalid |- *.
    rewrite Hvalid in H. cbn [negb] in H.
    destruct (sdk.IsPositive coin) eqn:Ep; [|discriminate].
    repeat split; try reflexivity; try assumption.
    rewrite Hpos in Ep. now apply Z.ltb_lt.
  - intros Hv Hp. rewrite Hrun, Hv, NewCoin_ok by (assumption || lia).
    fold coin. replace (sdk.IsValid coin) with true.
    + cbn [negb]. rewrite Hpos. apply Z.ltb_lt in Hp. now rewrite Hp.
    + symmetry. eapply NewCoin_returned. apply NewCoin_ok; [assumption | lia].
Qed.

(** C10. [PeggyCoin] does not look at whether the contract string is a
    valid address: for every token with a non-negative amount it returns
    the coin whose denomination is rendered from what [HexToAddress] makes
    of the string.  That is always a 20-byte address, so the denomination
    passes the coin-denomination check and decodes, as a peggy
    denomination, back to that address. *)
Theorem PeggyCoin_lossy_contract (h : heap) (e : ptr) (t : ERC20Token) :
  denom_prefix ModuleName = true ->
  deref h e = Some t ->
  0 <= Amount t ->
  let a := common.HexToAddress (Contract t) in
  run (PeggyCoin ModuleName e) h
  = Returned (sdk.mkCoin (PeggyDenomString ModuleName a) (Amount t), h)
  /\ valid_address a
  /\ sdk.ValidateDenom (PeggyDenomString ModuleName a) = None
  /\ NewPeggyDenomFromString ModuleName (PeggyDenomString ModuleName a)
     = Ok (NewPeggyDenom ModuleName a)
  /\ TokenContract ModuleName (NewPeggyDenom ModuleName a) = Ok a.
Proof.
  intros HM Ht Hamt a.
  assert (Ha : valid_address a) by apply HexToAddress_length.
  pose proof (MatchDenom_peggy ModuleName a HM Ha) as Hd.
  split; [|split; [|split; [|split]]].
  - rewrite (run_PeggyCoin ModuleName h e t Ht). fold a.
    now rewrite NewCoin_ok.
  - exact Ha.
  - unfold sdk.ValidateDenom. now rewrite Hd.
  - rewrite PeggyDenomString_eq.
    rewrite (NewPeggyDenomFromString_prefixed ModuleName (common.Hex a)
               (ValidateEthAddress_Hex a Ha)).
    now rewrite (HexToAddress_Hex a Ha).
  - rewrite NewPeggyDenom_eq. now apply TokenContract_prefixed_address.
Qed.

End Validation.

Lemma ValidateBasic_gate_witness :
  let t := mkERC20Token 0 "0x5aAeb6053F3E94C9b9A09f33669435E7Ef1BeAed" in
  deref [t] 0%nat = Some t
  /\ run (ValidateBasic "peggy" 0%nat) [t]
     = Returned (Some (Wrap ErrInvalidCoins
                         "0peggy0x5aAeb6053F3E94C9b9A09f33669435E7Ef1BeAed"), [t]).
Proof.
  intros t. split; [reflexivity|].
  destruct (ValidateBasic_gate "peggy" [t] 0%nat t eq_refl eq_refl) as [H _].
  rewrite H by reflexivity. vm_compute. reflexivity.
Defined.

Lemma PeggyCoin_lossy_contract_witness :
  let t := mkERC20Token 5 "not-an-address" in
  ValidateEthAddress (Contract t) = Some (NotValidAddress "not-an-address")
  /\ run (PeggyCoin "peggy" 0%nat) [t]
     = Returned (sdk.mkCoin "peggy0x0000000000000000000000000000000000000000" 5, [t]).
Proof.
  intros t. split; [reflexivity|].
  destruct (PeggyCoin_lossy_contract "peggy" [t] 0%nat t eq_refl eq_refl) as [H _].
  - vm_compute. discriminate.
  - rewrite H. vm_compute. reflexivity.
Defined.

(** ** [Add] *)

Lemma BitLen_bound (x n : Z) : 0 <= n -> Z.abs x < 2 ^ n -> sdk.BitLen x <= n.
Proof.
  intros Hn Hx. unfold sdk.BitLen. destruct (x =? 0) eqn:E; [lia|].
  apply Z.eqb_neq in E.
  assert (Z.log2 (Z.abs x) < n) by (apply Z.log2_lt_pow2; lia). lia.
Qed.

Lemma BitLen_exceeds (x n : Z) : 0 <= n -> 2 ^ n <= Z.abs x -> n < sdk.BitLen x.
Proof.
  intros Hn Hx. unfold sdk.BitLen.
  assert (0 < 2 ^ n) by (apply Z.pow_pos_nonneg; lia).
  destruct (x =? 0) eqn:E; [apply Z.eqb_eq in E; subst; simpl in Hx; lia|].
  assert (n <= Z.log2 (Z.abs x)) by (apply Z.log2_le_pow2; lia). lia.
Qed.

Lemma sdk_Add_fits (i i2 : Z) :
  Z.abs (i + i2) < 2 ^ sdk.maxBitLen -> sdk.Add i i2 = Returned (i + i2).
Proof.
  intros H. unfold sdk.Add. cbv zeta.
  replace (sdk.maxBitLen <? sdk.BitLen (i + i2)) with false; [reflexivity|].
  symmetry. apply Z.ltb_ge. apply BitLen_bound; [unfold sdk.maxBitLen; lia | exact H].
Qed.

Lemma sdk_Add_overflow (i i2 : Z) :
  2 ^ sdk.maxBitLen <= Z.abs (i + i2) -> sdk.Add i i2 = Panicked "Int overflow".
Proof.
  intros H. unfold sdk.Add. cbv zeta.
  replace (sdk.maxBitLen <? sdk.BitLen (i + i2)) with true; [reflexivity|].
  symmetry. apply Z.ltb_lt. apply BitLen_exceeds; [unfold sdk.maxBitLen; lia | exact H].
Qed.

Lemma sdk_Add_returned (i i2 sum : Z) : sdk.Add i i2 = Returned sum -> sum = i + i2.
Proof.
  unfold sdk.Add. cbv zeta. destruct (sdk.maxBitLen <? sdk.BitLen (i + i2));
    [discriminate | intros H; now inversion H].
Qed.

Lemma IsUint64_range (i : Z) : sdk.IsUint64 i = true <-> 0 <= i <= sdk.MaxUint64.
Proof.
  unfold sdk.IsUint64. rewrite andb_true_iff, !Z.leb_le. reflexivity.
Qed.

Lemma MaxUint64_pow : sdk.MaxUint64 = 2 ^ 64 - 1.
Proof. reflexivity. Qed.

Lemma run_Add (h : heap) (e o : ptr) (te to : ERC20Token) :
  deref h e = Some te -> deref h o = Some to ->
  run (Add e o) h =
  if negb (String.eqb (Contract te) (Contract to))
  then Returned (Err InvalidContractAddress, h)
  else match sdk.Add (Amount te) (Amount to) with
       | Panicked msg => Panicked msg
       | Returned sum =>
           if negb (sdk.IsUint64 sum) then Returned (Err InvalidAmount, h)
           else Returned
                  (Ok (List.length h),
                   (h ++ [mkERC20Token sum
                            (common.Hex (common.HexToAddress (Contract te)))])%list)
       end.
Proof.
  unfold deref, run, Add, bind, load. intros -> ->.
  destruct (negb (Contract te =? Contract to)%string); [reflexivity|].
  unfold lift at 1. destruct (sdk.Add (Amount te) (Amount to)) as [sum|msg];
    [|reflexivity].
  destruct (sdk.IsUint64 sum) eqn:E; cbn [negb]; [|reflexivity].
  unfold lift, sdk.Uint64. rewrite E. reflexivity.
Qed.

Lemma run_Add_loads (h h' : heap) (e o : ptr) (r : result ptr) :
  run (Add e o) h = Returned (r, h') ->
  exists te to, deref h e = Some te /\ deref h o = Some to.
Proof.
  unfold deref, run, Add, bind at 1, load at 1.
  destruct (nth_error h e) as [te|]; [|discriminate].
  unfold bind at 1, load at 1.
  destruct (nth_error h o) as [to|]; [|discriminate]. eauto.
Qed.

Lemma deref_alloc_new (h : heap) (t : ERC20Token) :
  deref (h ++ [t])%list (List.length h) = Some t /\ deref h (List.length h) = None.
Proof.
  unfold deref. split.
  - rewrite nth_error_app2, Nat.sub_diag by lia. reflexivity.
  - apply nth_error_None. lia.
Qed.

Lemma deref_alloc_old (h : heap) (t t0 : ERC20Token) (p : ptr) :
  deref h p = Some t0 -> deref (h ++ [t])%list p = Some t0.
Proof.
  unfold deref. intros H. rewrite nth_error_app1; [exact H|].
  apply nth_error_Some. now rewrite H.
Qed.

(** X15. The three checked outcomes of [Add].  With equal contract
    strings and a sum within the unsigned 64-bit range, [Add] allocates a new token, leaves every
    token already on the heap as it was, and the new token carries the
    sum and the address of the operands in its EIP-55 form (the very
    string of the operands when that string was made by [Address.Hex]);
    5 and 7 give 12.  With different contract strings it returns the
    contract error.  With equal contract strings and a sum above the
    unsigned 64-bit maximum that [sdk.Int] can still hold, it returns the
    amount error. *)
Theorem Add_checked (h : heap) (e o : ptr) (te to : ERC20Token) :
  deref h e = Some te -> deref h o = Some to ->
  let sum := Amount te + Amount to in
  let t' := mkERC20Token sum (common.Hex (common.HexToAddress (Contract te))) in
  (Contract te = Contract to -> 0 <= sum <= sdk.MaxUint64 ->
   run (Add e o) h = Returned (Ok (List.length h), (h ++ [t'])%list)
   /\ deref (h ++ [t'])%list (List.length h) = Some t'
   /\ deref h (List.length h) = None
   /\ deref (h ++ [t'])%list e = Some te
   /\ deref (h ++ [t'])%list o = Some to
   /\ common.HexToAddress (Contract t') = common.HexToAddress (Contract te)
   /\ (forall a, valid_address a -> Contract te = common.Hex a ->
       Contract t' = Contract te))
  /\ (Contract te <> Contract to ->
      run (Add e o) h = Returned (Err InvalidContractAddress, h))
  /\ (Contract te = Contract to -> sdk.MaxUint64 < sum -> sum < 2 ^ sdk.maxBitLen ->
      run (Add e o) h = Returned (Err InvalidAmount, h)).
Proof.
  intros He Ho sum t'. pose proof (run_Add h e o te to He Ho) as Hrun.
  split; [|split].
  - intros Hc Hsum. apply String.eqb_eq in Hc. rewrite Hc in Hrun. cbn [negb] in Hrun.
    rewrite sdk_Add_fits in Hrun.
    2:{ fold sum. rewrite MaxUint64_pow in Hsum. unfold sdk.maxBitLen.
        assert (2 ^ 64 < 2 ^ 256) by (apply Z.pow_lt_mono_r; lia). lia. }
    fold sum in Hrun. rewrite (proj2 (IsUint64_range sum) Hsum) in Hrun.
    cbn [negb] in Hrun. fold t' in Hrun.
    destruct (deref_alloc_new h t') as [Hnew Hfresh].
    repeat split; try assumption.
    + now apply deref_alloc_old.
    + now apply deref_alloc_old.
    + cbn [Contract t']. apply HexToAddress_Hex, HexToAddress_length.
    + intros a Ha Ea. cbn [Contract t']. rewrite Ea. now rewrite HexToAddress_Hex.
  - intros Hc. apply String.eqb_neq in Hc. now rewrite Hc in Hrun.
  - intros Hc Hlo Hhi. apply String.eqb_eq in Hc. rewrite Hc in Hrun. cbn [negb] in Hrun.
    rewrite sdk_Add_fits in Hrun.
    2:{ fold sum. unfold sdk.MaxUint64 in Hlo. lia. }
    fold sum in Hrun. replace (sdk.IsUint64 sum) with false in Hrun; [exact Hrun|].
    symmetry. destruct (sdk.IsUint64 sum) eqn:E; [|reflexivity].
    apply IsUint64_range in E. lia.
Qed.

(** C9. The token of every successful [Add] holds the sum of the two
    operands, and that sum lies in the unsigned 64-bit range, whatever the
    amounts of the operands were. *)
Theorem Add_result_is_uint64 (h h' : heap) (e o p : ptr) :
  run (Add e o) h = Returned (Ok p, h') ->
  exists te to t,
    deref h e = Some te /\ deref h o = Some to /\ deref h' p = Some t
    /\ Amount t = Amount te + Amount to
    /\ 0 <= Amount t <= sdk.MaxUint64
    /\ sdk.IsUint64 (Amount t) = true.
Proof.
  intros H. destruct (run_Add_loads _ _ _ _ _ H) as (te & to & He & Ho).
  exists te, to. rewrite (run_Add h e o te to He Ho) in H.
  destruct (negb (Contract te =? Contract to)%string); [discriminate|].
  destruct (sdk.Add (Amount te) (Amount to)) as [sum|msg] eqn:Es; [|discriminate].
  destruct (sdk.IsUint64 sum) eqn:Eu; cbn [negb] in H; [|discriminate].
  inversion H; subst p h'. eexists. split; [exact He|]. split; [exact Ho|].
  split; [apply deref_alloc_new|]. cbn [Amount].
  split; [now apply sdk_Add_returned|]. split; [now apply IsUint64_range | exact Eu].
Qed.

Lemma Add_checked_witness :
  let c := "0x5aAeb6053F3E94C9b9A09f33669435E7Ef1BeAed" in
  let h := [mkERC20Token 5 c; mkERC20Token 7 c] in
  run (Add 0%nat 1%nat) h
  = Returned (Ok 2%nat, [mkERC20Token 5 c; mkERC20Token 7 c; mkERC20Token 12 c]).
Proof.
  intros c h.
  destruct (Add_checked h 0%nat 1%nat (mkERC20Token 5 c) (mkERC20Token 7 c)
              eq_refl eq_refl) as [H _].
  destruct H as [H _]; [reflexivity | cbn; unfold sdk.MaxUint64; lia |].
  rewrite H. vm_compute. reflexivity.
Defined.

(** C2. The code at the input where it departs from the claim: two
    tokens of the same contract whose amounts [sdk.Int] holds and whose
    sum needs more than [maxBitLen] bits.  The sum is above the unsigned
    64-bit maximum, so the claim's amount error is due; [sdk.Int.Add]
    panics before [IsUint64] is asked, and [Add] returns nothing. *)
Lemma Add_Int_overflow_panics :
  let c := "0x5aAeb6053F3E94C9b9A09f33669435E7Ef1BeAed" in
  let te := mkERC20Token (2 ^ 255) c in
  let to := mkERC20Token (2 ^ 255) c in
  Contract te = Contract to
  /\ sdk.BitLen (Amount te) <= sdk.maxBitLen
  /\ sdk.BitLen (Amount to) <= sdk.maxBitLen
  /\ sdk.MaxUint64 < Amount te + Amount to
  /\ run (Add 0%nat 1%nat) [te; to] = Panicked "Int overflow"
  /\ run (Add 0%nat 1%nat) [te; to] <> Returned (Err InvalidAmount, [te; to]).
Proof.
  intros c te to.
  assert (H : run (Add 0%nat 1%nat) [te; to] = Panicked "Int overflow")
    by (vm_compute; reflexivity).
  repeat split; try exact H; try (rewrite H; discriminate);
    vm_compute; congruence.
Qed.

Lemma Add_result_is_uint64_witness :
  let c := "0x5aAeb6053F3E94C9b9A09f33669435E7Ef1BeAed" in
  let h := [mkERC20Token (2 ^ 64) c; mkERC20Token (-1) c] in
  exists h' t, run (Add 0%nat 1%nat) h = Returned (Ok 2%nat, h')
               /\ deref h' 2%nat = Some t
               /\ 0 <= Amount t <= sdk.MaxUint64.
Proof.
  intros c h.
  assert (H : run (Add 0%nat 1%nat) h =
              Returned (Ok 2%nat, (h ++ [mkERC20Token (2 ^ 64 - 1) c])%list))
    by (vm_compute; reflexivity).
  destruct (Add_result_is_uint64 h _ 0%nat 1%nat 2%nat H)
    as (te & to & t & _ & _ & Ht & _ & Hr & _).
  exists (h ++ [mkERC20Token (2 ^ 64 - 1) c])%list, t.
  split; [exact H | split; [exact Ht | exact Hr]].
Defined.

(** * Further properties of the codec and of tokens *)

(** ** More on the codec *)

Lemma string_app_inv_head (p s t : string) : p ++ s = p ++ t -> s = t.
Proof.
  induction p as [|c p IH]; cbn [String.append]; intros H; [exact H|].
  inversion H. now apply IH.
Qed.

Lemma substring_drop (n : nat) (s : string) :
  substring 0 n s ++ strings.drop n s = s.
Proof.
  revert s. induction n as [|n IH]; intros [|c s]; cbn; try reflexivity.
  now rewrite IH.
Qed.

Lemma strings_HasPrefix_inv (s p : string) :
  strings.HasPrefix s p = true -> s = p ++ strings.drop (String.length p) s.
Proof.
  unfold strings.HasPrefix. intros H. apply andb_true_iff in H as [_ H].
  apply String.eqb_eq in H. rewrite <- H at 1. symmetry. apply substring_drop.
Qed.

Lemma Hex_inj (a b : common.Address) :
  valid_address a -> valid_address b -> common.Hex a = common.Hex b -> a = b.
Proof.
  intros Ha Hb H. rewrite <- (HexToAddress_Hex a Ha), <- (HexToAddress_Hex b Hb), H.
  reflexivity.
Qed.

Section CodecMore.

Variable ModuleName : string.

Local Abbreviation fullPrefix :=
  (PeggyDenomPrefix ModuleName ++ PeggyDenomSeparator).

Lemma TokenContract_Ok_inv (p : PeggyDenom) (a : common.Address) :
  TokenContract ModuleName p = Ok a ->
  valid_address a /\ p = NewPeggyDenom ModuleName a.
Proof.
  unfold TokenContract.
  destruct (bytes.HasPrefix p (list_byte_of_string fullPrefix)) eqn:E;
    cbn [negb]; [|discriminate].
  apply bytes_HasPrefix_inv in E as [r ->]. rewrite bytes_TrimPrefix_app.
  destruct (List.length r =? ETHContractAddressLen)%nat eqn:El; cbn [negb];
    [|discriminate].
  apply Nat.eqb_eq in El. rewrite (BytesToAddress_id r El).
  intros H. inversion H; subst a. split; [exact El | reflexivity].
Qed.

(** X1. The byte denomination of a 20-byte address has exactly
    [PeggyDenomLen] bytes, and its denomination string is the prefix and
    separator followed by 42 characters. *)
Theorem PeggyDenom_fixed_length (a : common.Address) :
  valid_address a ->
  List.length (NewPeggyDenom ModuleName a) = PeggyDenomLen ModuleName
  /\ String.length (PeggyDenomString ModuleName a)
     = (String.length (PeggyDenomPrefix ModuleName)
        + String.length PeggyDenomSeparator + 42)%nat.
Proof.
  intros Ha. pose proof Ha as Hl. unfold valid_address, common.AddressLength in Hl.
  split.
  - rewrite NewPeggyDenom_eq, length_app, list_byte_of_string_length.
    rewrite string_length_append, Hl. reflexivity.
  - rewrite PeggyDenomString_eq, !string_length_append, Hex_length, Hl. reflexivity.
Qed.

(** X2. [TokenContract] succeeds on exactly the byte strings that
    [NewPeggyDenom] makes from a 20-byte address, and then returns that
    address: encoding what was decoded gives the input back. *)
Theorem TokenContract_accepts_only_NewPeggyDenom (p : PeggyDenom) (a : common.Address) :
  TokenContract ModuleName p = Ok a <->
  valid_address a /\ p = NewPeggyDenom ModuleName a.
Proof.
  split; [apply TokenContract_Ok_inv|].
  intros [Ha ->]. rewrite NewPeggyDenom_eq. now apply TokenContract_prefixed_address.
Qed.

(** X7. Different addresses get different denominations, in the byte
    form and in the string form. *)
Theorem PeggyDenom_injective (a b : common.Address) :
  (NewPeggyDenom ModuleName a = NewPeggyDenom ModuleName b -> a = b)
  /\ (valid_address a -> valid_address b ->
      PeggyDenomString ModuleName a = PeggyDenomString ModuleName b -> a = b).
Proof.
  split.
  - rewrite !NewPeggyDenom_eq. apply app_inv_head.
  - intros Ha Hb H. rewrite !PeggyDenomString_eq in H.
    apply string_app_inv_head in H. now apply Hex_inj.
Qed.

End CodecMore.

(** ** Strings that cannot be addresses *)

Lemma allHex_app (s t : string) :
  common.allHex (s ++ t) = common.allHex s && common.allHex t.
Proof.
  induction s as [|c s IH]; [reflexivity|]. cbn [String.append common.allHex].
  destruct (common.isHexCharacter c); [exact IH | reflexivity].
Qed.

Lemma drop_app_last (k : nat) (x : string) (c : ascii) :
  strings.drop k (x ++ String c "") = ""
  \/ exists y, strings.drop k (x ++ String c "") = y ++ String c "".
Proof.
  revert x. induction k as [|k IH]; intros x.
  - right. exists x. reflexivity.
  - destruct x as [|d x]; cbn [String.append strings.drop].
    + left. now destruct k.
    + apply IH.
Qed.

Lemma drop_drop (j k : nat) (s : string) :
  strings.drop j (strings.drop k s) = strings.drop (k + j) s.
Proof.
  revert s. induction k as [|k IH]; intros s; [reflexivity|].
  destruct s as [|c s]; cbn [strings.drop Nat.add]; [now destruct j | apply IH].
Qed.

Lemma hexDigits_drop (s : string) : exists j, hexDigits s = strings.drop j s.
Proof.
  unfold hexDigits. destruct (common.has0xPrefix s); [now exists 2%nat | now exists 0%nat].
Qed.

(** A string that ends in a character that is not hexadecimal has no
    suffix that is an address. *)
Lemma IsHexAddress_drop_last (k : nat) (x : string) (c : ascii) :
  common.isHexCharacter c = false ->
  common.IsHexAddress (strings.drop k (x ++ String c "")) = false.
Proof.
  intros Hc. destruct (common.IsHexAddress _) eqn:E; [|reflexivity].
  apply IsHexAddress_inv in E as [Hlen Hhex].
  destruct (hexDigits_drop (strings.drop k (x ++ String c ""))) as [j Hj].
  rewrite Hj, drop_drop in Hlen, Hhex.
  destruct (drop_app_last (k + j) x c) as [H|[y H]]; rewrite H in Hlen, Hhex.
  - discriminate Hlen.
  - rewrite allHex_app in Hhex. cbn [common.allHex] in Hhex. rewrite Hc in Hhex.
    now rewrite andb_false_r in Hhex.
Qed.

Section Rendering.

Variable ModuleName : string.

Local Abbreviation fullPrefix :=
  (PeggyDenomPrefix ModuleName ++ PeggyDenomSeparator).

Lemma NewPeggyDenomFromString_Ok_inv (denom : string) (q : PeggyDenom) :
  NewPeggyDenomFromString ModuleName denom = Ok q ->
  exists s, denom = fullPrefix ++ s
            /\ s = strings.drop (String.length fullPrefix) denom
            /\ common.IsHexAddress s = true
            /\ q = NewPeggyDenom ModuleName (common.HexToAddress s).
Proof.
  unfold NewPeggyDenomFromString.
  destruct (strings.HasPrefix denom fullPrefix) eqn:E; cbn [negb]; [|discriminate].
  unfold strings.TrimPrefix. rewrite E.
  destruct (ValidateEthAddress _) eqn:Ev; [discriminate|].
  intros H. inversion H; subst q. eexists. split; [|split; [reflexivity|split]].
  - now apply strings_HasPrefix_inv.
  - now apply ValidateEthAddress_None.
  - reflexivity.
Qed.

(** X3. The string that [String] renders parses back, through
    [NewPeggyDenomFromString], to the denomination it was rendered from
    exactly when that denomination decodes; the placeholder rendered for
    one that does not decode is never accepted as a denomination string:
    parsing it gives an error, and no denomination at all. *)
Theorem PeggyDenom_String_parses_back (p : PeggyDenom) :
  (NewPeggyDenomFromString ModuleName (PeggyDenom_String ModuleName p) = Ok p
   <-> exists a, TokenContract ModuleName p = Ok a)
  /\ (forall err, TokenContract ModuleName p = Err err ->
      (exists err',
         NewPeggyDenomFromString ModuleName (PeggyDenom_String ModuleName p)
         = Err err')
      /\ forall q,
          NewPeggyDenomFromString ModuleName (PeggyDenom_String ModuleName p)
          <> Ok q).
Proof.
  assert (Hplace : forall err q,
            NewPeggyDenomFromString ModuleName
              (hex.EncodeToString p ++ "(error: " ++ Error err ++ ")") <> Ok q).
  { intros err q H.
    apply NewPeggyDenomFromString_Ok_inv in H as (s & _ & Hs & Hhex & _).
    rewrite Hs in Hhex.
    replace (hex.EncodeToString p ++ "(error: " ++ Error err ++ ")")
      with ((hex.EncodeToString p ++ "(error: " ++ Error err) ++ ")") in Hhex
      by now rewrite !string_append_assoc.
    now rewrite IsHexAddress_drop_last in Hhex. }
  split; [split|].
  - unfold PeggyDenom_String.
    destruct (TokenContract ModuleName p) as [a|err] eqn:E; [eauto|].
    intros H. now elim (Hplace err p).
  - intros [a Ha]. unfold PeggyDenom_String. rewrite Ha.
    apply TokenContract_Ok_inv in Ha as [Hv ->].
    rewrite PeggyDenomString_eq.
    rewrite (NewPeggyDenomFromString_prefixed ModuleName (common.Hex a)
               (ValidateEthAddress_Hex a Hv)).
    now rewrite (HexToAddress_Hex a Hv).
  - intros err E. unfold PeggyDenom_String. rewrite E.
    split; [|apply Hplace].
    destruct (NewPeggyDenomFromString ModuleName _) as [q|err'] eqn:En; [|eauto].
    now elim (Hplace err q).
Qed.

(** X4. [NewPeggyDenomFromString] refuses a string that does not start
    with the prefix and separator with the prefix error, the bare prefix
    with the empty-address error and a prefixed string whose rest is not
    an address with the malformed-address error naming that rest; when it
    succeeds, the string was the prefix followed by an address string and
    the result decodes to the address that string parses to. *)
Theorem NewPeggyDenomFromString_cases (denom : string) :
  ((forall s, denom <> fullPrefix ++ s) ->
   NewPeggyDenomFromString ModuleName denom
   = Err (StringPrefixMismatch denom fullPrefix))
  /\ (denom = fullPrefix ->
      NewPeggyDenomFromString ModuleName denom = Err EmptyAddress)
  /\ (forall s, denom = fullPrefix ++ s -> s <> "" ->
      common.IsHexAddress s = false ->
      NewPeggyDenomFromString ModuleName denom = Err (NotValidAddress s))
  /\ (forall q, NewPeggyDenomFromString ModuleName denom = Ok q ->
      exists s, denom = fullPrefix ++ s
                /\ common.IsHexAddress s = true
                /\ q = NewPeggyDenom ModuleName (common.HexToAddress s)
                /\ TokenContract ModuleName q = Ok (common.HexToAddress s)).
Proof.
  split; [|split; [|split]].
  - intros Hno. unfold NewPeggyDenomFromString.
    destruct (strings.HasPrefix denom fullPrefix) eqn:E; [|reflexivity].
    apply strings_HasPrefix_inv in E. now elim (Hno _ E).
  - intros ->. unfold NewPeggyDenomFromString.
    pose proof (strings_HasPrefix_app fullPrefix "") as H1.
    pose proof (strings_TrimPrefix_app fullPrefix "") as H2.
    rewrite string_append_nil_r in H1, H2. rewrite H1, H2. reflexivity.
  - intros s -> Hne Hhex. unfold NewPeggyDenomFromString.
    rewrite strings_HasPrefix_app, strings_TrimPrefix_app. cbn [negb].
    unfold ValidateEthAddress. apply String.eqb_neq in Hne. now rewrite Hne, Hhex.
  - intros q H. apply NewPeggyDenomFromString_Ok_inv in H as (s & H1 & _ & H2 & H3).
    exists s. repeat split; try assumption. subst q.
    rewrite NewPeggyDenom_eq.
    apply TokenContract_prefixed_address, HexToAddress_length.
Qed.

(** X5. Two accepted address strings give the same denomination exactly
    when their hexadecimal digits agree up to letter case: the case of the
    letters and an optional [0x] or [0X] make no difference. *)
Theorem NewPeggyDenomFromString_normalises (s s' : string) :
  common.IsHexAddress s = true -> common.IsHexAddress s' = true ->
  (NewPeggyDenomFromString ModuleName (fullPrefix ++ s)
   = NewPeggyDenomFromString ModuleName (fullPrefix ++ s')
   <-> lower (hexDigits s) = lower (hexDigits s')).
Proof.
  intros Hs Hs'.
  rewrite !NewPeggyDenomFromString_prefixed by now apply ValidateEthAddress_None.
  destruct (HexToAddress_valid s Hs) as [Hd He].
  destruct (HexToAddress_valid s' Hs') as [Hd' He'].
  split.
  - intros H. inversion H as [H']. rewrite !NewPeggyDenom_eq in H'.
    apply app_inv_head in H'. now rewrite <- He, <- He', H'.
  - intros H. do 2 f_equal.
    rewrite Hd, Hd', <- (Decode_lower (hexDigits s)), <- (Decode_lower (hexDigits s')), H.
    reflexivity.
Qed.

End Rendering.

(** X6. [ValidateEthAddress] accepts exactly the strings that, after an
    optional [0x] or [0X], are 40 hexadecimal characters (so the prefix
    may be missing); every other string is refused, the empty one as
    empty and the rest as malformed, with the string in the error. *)
Theorem ValidateEthAddress_accepts (s : string) :
  (ValidateEthAddress s = None <->
   String.length (hexDigits s) = 40%nat
   /\ Forall hex_digit (list_ascii_of_string (hexDigits s)))
  /\ (ValidateEthAddress s <> None ->
      ValidateEthAddress s = Some (if String.eqb s "" then EmptyAddress
                                   else NotValidAddress s)).
Proof.
  split.
  - rewrite ValidateEthAddress_None. split.
    + intros H. apply IsHexAddress_inv in H as [Hl Hh].
      split; [exact Hl | now apply allHex_Forall_hex_digit].
    + intros [Hl Hh]. apply Forall_hex_digit_allHex in Hh.
      unfold common.IsHexAddress. fold (hexDigits s). cbv zeta.
      unfold common.isHex. rewrite Hl, Hh. reflexivity.
  - unfold ValidateEthAddress. destruct (String.eqb s ""); [reflexivity|].
    destruct (common.IsHexAddress s); cbn [negb]; [intros H; now elim H | reflexivity].
Qed.

(** ** Tokens on the heap *)

Lemma run_bind {A B} (m : M A) (k : A -> M B) (h : heap) :
  run (bind m k) h =
  match run m h with
  | Returned (a, h') => run (k a) h'
  | Panicked msg => Panicked msg
  end.
Proof. reflexivity. Qed.

Lemma run_NewSDKIntERC20Token (amount : Z) (a : common.Address) (h : heap) :
  run (NewSDKIntERC20Token amount a) h
  = Returned (List.length h, (h ++ [mkERC20Token amount (common.Hex a)])%list).
Proof. reflexivity. Qed.

Lemma run_NewERC20Token (amount : Z) (a : common.Address) (h : heap) :
  run (NewERC20Token amount a) h
  = Returned (List.length h, (h ++ [mkERC20Token amount (common.Hex a)])%list).
Proof. reflexivity. Qed.

Lemma run_Add_nil (h : heap) (e o : ptr) :
  deref h e = None \/ deref h o = None ->
  run (Add e o) h = Panicked "invalid memory address or nil pointer dereference".
Proof.
  unfold deref, run, Add, bind at 1, load at 1.
  destruct (nth_error h e) as [te|]; [|reflexivity].
  unfold bind at 1, load at 1.
  destruct (nth_error h o) as [to|]; [|reflexivity].
  intros [H|H]; discriminate H.
Qed.

Section TokenMore.

Variable ModuleName : string.

Lemma run_ValidateBasic_valid (h : heap) (e : ptr) (t : ERC20Token) :
  denom_prefix ModuleName = true ->
  deref h e = Some t ->
  ValidateEthAddress (Contract t) = None ->
  let coin :=
    sdk.mkCoin (PeggyDenomString ModuleName (common.HexToAddress (Contract t)))
               (Amount t) in
  run (ValidateBasic ModuleName e) h =
  if Amount t <? 0 then Panicked (Error (NegativeCoinAmount (Amount t)))
  else if 0 <? Amount t then Returned (None, h)
       else Returned (Some (Wrap ErrInvalidCoins (sdk.Coin_String coin)), h).
Proof.
  intros HM Ht Hv. cbv zeta. rewrite (run_ValidateBasic ModuleName h e t Ht), Hv.
  pose proof (MatchDenom_peggy ModuleName _ HM (HexToAddress_length (Contract t))) as Hd.
  unfold sdk.NewCoin, sdk.Validate, sdk.ValidateDenom, sdk.IsNegative.
  cbn [sdk.Denom sdk.Amount]. rewrite Hd. cbn [negb].
  destruct (Amount t <? 0) eqn:En; [reflexivity|].
  unfold sdk.IsValid, sdk.Validate, sdk.ValidateDenom, sdk.IsNegative.
  cbn [sdk.Denom sdk.Amount]. rewrite Hd, En. cbn [negb].
  unfold sdk.IsPositive, sdk.Sign. cbn [sdk.Amount].
  now destruct (Amount t).
Qed.

(** X8. The coin of a token made by [NewSDKIntERC20Token] or
    [NewERC20Token] from a 20-byte address and a non-negative amount has
    that amount and the denomination string of that very address: storing
    the address as text and parsing it again loses nothing. *)
Theorem constructed_token_coin (amount : Z) (a : common.Address) (h : heap) :
  denom_prefix ModuleName = true -> valid_address a -> 0 <= amount ->
  let h' := (h ++ [mkERC20Token amount (common.Hex a)])%list in
  run (p <- NewSDKIntERC20Token amount a ;; PeggyCoin ModuleName p) h
  = Returned (sdk.mkCoin (PeggyDenomString ModuleName a) amount, h')
  /\ run (p <- NewERC20Token amount a ;; PeggyCoin ModuleName p) h
     = Returned (sdk.mkCoin (PeggyDenomString ModuleName a) amount, h').
Proof.
  intros HM Ha Hn h'.
  assert (H : run (PeggyCoin ModuleName (List.length h)) h'
              = Returned (sdk.mkCoin (PeggyDenomString ModuleName a) amount, h')).
  { rewrite (run_PeggyCoin ModuleName h' _ _ (proj1 (deref_alloc_new h _))).
    cbn [Contract Amount]. rewrite (HexToAddress_Hex a Ha).
    now rewrite NewCoin_ok by (try apply MatchDenom_peggy; assumption). }
  split; rewrite run_bind;
    [rewrite run_NewSDKIntERC20Token | rewrite run_NewERC20Token]; exact H.
Qed.

(** X9. A token made by [NewERC20Token] from a 20-byte address passes
    [ValidateBasic] when its amount is positive, and is refused with the
    invalid-coins error, whose text is the coin, when its amount is
    zero. *)
Theorem constructed_token_ValidateBasic (amount : Z) (a : common.Address) (h : heap) :
  denom_prefix ModuleName = true -> valid_address a -> 0 <= amount ->
  let h' := (h ++ [mkERC20Token amount (common.Hex a)])%list in
  run (p <- NewERC20Token amount a ;; ValidateBasic ModuleName p) h
  = if 0 <? amount then Returned (None, h')
    else Returned (Some (Wrap ErrInvalidCoins
                           (Int_String 0 ++ PeggyDenomString ModuleName a)), h').
Proof.
  intros HM Ha Hn h'. rewrite run_bind, run_NewERC20Token. fold h'.
  rewrite (run_ValidateBasic_valid h' _ _ HM (proj1 (deref_alloc_new h _)));
    cbn [Contract Amount]; [|now apply ValidateEthAddress_Hex].
  rewrite (HexToAddress_Hex a Ha).
  replace (amount <? 0) with false by (symmetry; apply Z.ltb_ge; lia).
  destruct (0 <? amount) eqn:E; [reflexivity|].
  apply Z.ltb_ge in E. assert (amount = 0) by lia. subst amount. reflexivity.
Qed.

(** X14. On a token with a valid contract string and a negative amount
    [ValidateBasic] returns no error: it panics in [sdk.NewCoin] with the
    text "negative coin amount: " followed by the amount. *)
Theorem ValidateBasic_negative_amount (h : heap) (e : ptr) (t : ERC20Token) :
  denom_prefix ModuleName = true ->
  deref h e = Some t ->
  ValidateEthAddress (Contract t) = None ->
  Amount t < 0 ->
  run (ValidateBasic ModuleName e) h
  = Panicked ("negative coin amount: " ++ Int_String (Amount t)).
Proof.
  intros HM Ht Hv Hn. rewrite (run_ValidateBasic_valid h e t HM Ht Hv).
  apply Z.ltb_lt in Hn. now rewrite Hn.
Qed.

(** X11. The token of a successful [Add] always has a contract string
    that passes [ValidateEthAddress]: it is the EIP-55 form of what
    [HexToAddress] makes of the operands' string, even when that string
    was not an address.  Its coin has the sum as amount and the
    denomination of that address, and it passes [ValidateBasic] when the
    sum is positive. *)
Theorem Add_result_canonical (h h' : heap) (e o p : ptr) :
  run (Add e o) h = Returned (Ok p, h') ->
  exists te to t,
    deref h e = Some te /\ deref h o = Some to /\ deref h' p = Some t
    /\ Contract t = common.Hex (common.HexToAddress (Contract te))
    /\ ValidateEthAddress (Contract t) = None
    /\ (denom_prefix ModuleName = true ->
        run (PeggyCoin ModuleName p) h'
        = Returned (sdk.mkCoin (PeggyDenomString ModuleName
                                  (common.HexToAddress (Contract te)))
                               (Amount te + Amount to), h')
        /\ (0 < Amount te + Amount to ->
            run (ValidateBasic ModuleName p) h' = Returned (None, h'))).
Proof.
  intros H. destruct (run_Add_loads _ _ _ _ _ H) as (te & to & He & Ho).
  exists te, to. rewrite (run_Add h e o te to He Ho) in H.
  destruct (negb (Contract te =? Contract to)%string); [discriminate|].
  destruct (sdk.Add (Amount te) (Amount to)) as [sum|msg] eqn:Es; [|discriminate].
  destruct (sdk.IsUint64 sum) eqn:Eu; cbn [negb] in H; [|discriminate].
  apply sdk_Add_returned in Es. apply IsUint64_range in Eu.
  inversion H; subst p h'. clear H.
  set (a := common.HexToAddress (Contract te)).
  set (t := mkERC20Token sum (common.Hex a)).
  assert (Ha : valid_address a) by apply HexToAddress_length.
  assert (Ht : deref (h ++ [t])%list (List.length h) = Some t)
    by apply deref_alloc_new.
  exists t. repeat split; try assumption; try reflexivity.
  - now apply ValidateEthAddress_Hex.
  - rewrite (run_PeggyCoin ModuleName _ _ _ Ht). cbn [Contract Amount t].
    rewrite (HexToAddress_Hex a Ha), <- Es.
    now rewrite NewCoin_ok by (try apply MatchDenom_peggy; assumption || lia).
  - intros Hpos. rewrite (run_ValidateBasic_valid _ _ _ H Ht);
      cbn [Contract Amount t]; [|now apply ValidateEthAddress_Hex].
    rewrite <- Es in Hpos.
    replace (sum <? 0) with false by (symmetry; apply Z.ltb_ge; lia).
    apply Z.ltb_lt in Hpos. now rewrite Hpos.
Qed.

(** X12. [PeggyCoin] and [ValidateBasic] leave the heap as it is.
    [Add] changes no token that was on the heap: on an error the heap is
    the same, and on success it has exactly one token more, at the
    pointer returned. *)
Theorem heap_only_grows (h : heap) (e o : ptr) :
  (forall c h', run (PeggyCoin ModuleName e) h = Returned (c, h') -> h' = h)
  /\ (forall r h', run (ValidateBasic ModuleName e) h = Returned (r, h') -> h' = h)
  /\ (forall r h', run (Add e o) h = Returned (r, h') ->
      (forall q t, deref h q = Some t -> deref h' q = Some t)
      /\ match r with
         | Err _ => h' = h
         | Ok p => p = List.length h /\ List.length h' = S (List.length h)
         end).
Proof.
  split; [|split].
  - intros c h' H. destruct (deref h e) as [t|] eqn:Ht.
    + rewrite (run_PeggyCoin ModuleName h e t Ht) in H.
      destruct (sdk.NewCoin _ _); [now inversion H | discriminate].
    + unfold deref in Ht. unfold run, PeggyCoin, bind, load in H.
      rewrite Ht in H. discriminate.
  - intros r h' H. destruct (deref h e) as [t|] eqn:Ht.
    + rewrite (run_ValidateBasic ModuleName h e t Ht) in H.
      destruct (ValidateEthAddress _); [now inversion H|].
      destruct (sdk.NewCoin _ _) as [c|]; [|discriminate].
      destruct (negb (sdk.IsValid c)); [now inversion H|].
      destruct (negb (sdk.IsPositive c)); now inversion H.
    + unfold deref in Ht. unfold run, ValidateBasic, bind, load in H.
      rewrite Ht in H. discriminate.
  - intros r h' H. destruct (run_Add_loads _ _ _ _ _ H) as (te & to & He & Ho).
    rewrite (run_Add h e o te to He Ho) in H.
    destruct (negb (Contract te =? Contract to)%string);
      [inversion H; subst; now split|].
    destruct (sdk.Add _ _) as [sum|]; [|discriminate].
    destruct (negb (sdk.IsUint64 sum)); inversion H; subst; [now split|].
    split; [intros q t Hq; now apply deref_alloc_old|].
    split; [reflexivity|]. rewrite length_app. cbn. lia.
Qed.

End TokenMore.

(** X10. [Add] is symmetric: swapping the operands gives the same
    result, error or panic, and the same heap. *)
Theorem Add_commutes (h : heap) (e o : ptr) : run (Add e o) h = run (Add o e) h.
Proof.
  destruct (deref h e) as [te|] eqn:He; [destruct (deref h o) as [to|] eqn:Ho|].
  - rewrite (run_Add h e o te to He Ho), (run_Add h o e to te Ho He).
    rewrite (String.eqb_sym (Contract to)).
    replace (sdk.Add (Amount to) (Amount te)) with (sdk.Add (Amount te) (Amount to))
      by (unfold sdk.Add; now rewrite Z.add_comm).
    destruct (String.eqb_spec (Contract te) (Contract to)) as [Ec|Ec]; cbn [negb];
      [|reflexivity].
    now rewrite Ec.
  - now rewrite !run_Add_nil by auto.
  - now rewrite !run_Add_nil by auto.
Qed.

(** X13. For two tokens made by [NewERC20Token] from 20-byte addresses
    and unsigned 64-bit amounts, [Add] never panics: it returns the
    contract error when the addresses differ, the amount error when the
    addresses are equal and the sum is above the unsigned 64-bit maximum,
    and otherwise a new token holding the sum for that address. *)
Theorem Add_of_constructed_tokens (n m : Z) (a b : common.Address) (h : heap) :
  valid_address a -> valid_address b ->
  0 <= n <= sdk.MaxUint64 -> 0 <= m <= sdk.MaxUint64 ->
  let h2 := (h ++ [mkERC20Token n (common.Hex a); mkERC20Token m (common.Hex b)])%list in
  run (pe <- NewERC20Token n a ;; po <- NewERC20Token m b ;; Add pe po) h
  = if negb (bytes.Equal a b) then Returned (Err InvalidContractAddress, h2)
    else if sdk.MaxUint64 <? n + m then Returned (Err InvalidAmount, h2)
         else Returned (Ok (S (S (List.length h))),
                        (h2 ++ [mkERC20Token (n + m) (common.Hex a)])%list).
Proof.
  intros Ha Hb Hn Hm h2.
  rewrite run_bind, run_NewERC20Token, run_bind, run_NewERC20Token.
  replace ((h ++ [mkERC20Token n (common.Hex a)]) ++ [mkERC20Token m (common.Hex b)])%list
    with h2 by (unfold h2; now rewrite <- app_assoc).
  assert (He : deref h2 (List.length h) = Some (mkERC20Token n (common.Hex a))).
  { unfold deref, h2. rewrite nth_error_app2, Nat.sub_diag by lia. reflexivity. }
  assert (Ho : deref h2 (List.length (h ++ [mkERC20Token n (common.Hex a)]))
               = Some (mkERC20Token m (common.Hex b))).
  { unfold deref, h2. rewrite length_app. cbn [List.length].
    rewrite nth_error_app2 by lia.
    replace (List.length h + 1 - List.length h)%nat with 1%nat by lia. reflexivity. }
  rewrite (run_Add _ _ _ _ _ He Ho). cbn [Contract Amount].
  destruct (bytes.Equal a b) eqn:Eab; cbn [negb].
  - apply bytes_Equal_eq in Eab. subst b. rewrite String.eqb_refl. cbn [negb].
    rewrite sdk_Add_fits.
    2:{ unfold sdk.MaxUint64 in Hn, Hm. unfold sdk.maxBitLen.
        assert (2 ^ 65 < 2 ^ 256) by (apply Z.pow_lt_mono_r; lia). lia. }
    destruct (sdk.MaxUint64 <? n + m) eqn:E.
    + apply Z.ltb_lt in E. replace (sdk.IsUint64 (n + m)) with false; [reflexivity|].
      symmetry. destruct (sdk.IsUint64 (n + m)) eqn:Eu; [|reflexivity].
      apply IsUint64_range in Eu. lia.
    + apply Z.ltb_ge in E.
      rewrite (proj2 (IsUint64_range (n + m))) by lia. cbn [negb].
      rewrite (HexToAddress_Hex a Ha).
      replace (List.length h2) with (S (S (List.length h)));
        [reflexivity | unfold h2; rewrite length_app; cbn; lia].
  - replace (common.Hex a =? common.Hex b)%string with false; [reflexivity|].
    symmetry. apply String.eqb_neq. intros H. apply (Hex_inj a b Ha Hb) in H.
    subst b. now rewrite bytes_Equal_refl in Eab.
Qed.

(** ** The properties above on concrete values *)

Lemma PeggyDenom_fixed_length_witness :
  let a := common.HexToAddress "0x5aAeb6053F3E94C9b9A09f33669435E7Ef1BeAed" in
  List.length (NewPeggyDenom "peggy" a) = 25%nat
  /\ String.length (PeggyDenomString "peggy" a) = 47%nat.
Proof.
  intros a. assert (Ha : valid_address a) by reflexivity.
  destruct (PeggyDenom_fixed_length "peggy" a Ha) as [H1 H2].
  split; [rewrite H1 | rewrite H2]; reflexivity.
Defined.

Lemma TokenContract_accepts_only_NewPeggyDenom_witness :
  let a := list_byte_of_string "0123456789abcdefghij" in
  TokenContract "peggy" (list_byte_of_string "peggy0123456789abcdefghij") = Ok a.
Proof.
  intros a.
  apply (proj2 (TokenContract_accepts_only_NewPeggyDenom "peggy" _ a)).
  split; reflexivity.
Defined.

Lemma PeggyDenom_injective_witness :
  let a := common.HexToAddress "0x5aAeb6053F3E94C9b9A09f33669435E7Ef1BeAed" in
  let b := common.HexToAddress "0xfB6916095ca1df60bB79Ce92cE3Ea74c37c5d359" in
  PeggyDenomString "peggy" a <> PeggyDenomString "peggy" b.
Proof.
  intros a b H.
  apply (proj2 (PeggyDenom_injective "peggy" a b)) in H;
    [discriminate H | reflexivity | reflexivity].
Defined.

Lemma PeggyDenom_String_parses_back_witness :
  let p := list_byte_of_string "peggyabc" in
  PeggyDenom_String "peggy" p
  = "7065676779616263(error: failed to validate Ethereum address bytes: 616263)"
  /\ exists err',
       NewPeggyDenomFromString "peggy" (PeggyDenom_String "peggy" p) = Err err'.
Proof.
  intros p. split; [reflexivity|].
  apply (proj2 (PeggyDenom_String_parses_back "peggy" p)
           (BadAddressBytes (list_byte_of_string "abc")) eq_refl).
Defined.

Lemma NewPeggyDenomFromString_cases_witness :
  NewPeggyDenomFromString "peggy" "peggy" = Err EmptyAddress
  /\ NewPeggyDenomFromString "peggy" "peggy0x12"
     = Err (NotValidAddress "0x12").
Proof.
  split.
  - apply (proj1 (proj2 (NewPeggyDenomFromString_cases "peggy" "peggy"))).
    reflexivity.
  - apply (proj1 (proj2 (proj2 (NewPeggyDenomFromString_cases "peggy" "peggy0x12")))
             "0x12"); [reflexivity | discriminate | reflexivity].
Defined.

Lemma NewPeggyDenomFromString_normalises_witness :
  NewPeggyDenomFromString "peggy" "peggy0x5aaeb6053f3e94c9b9a09f33669435e7ef1beaed"
  = NewPeggyDenomFromString "peggy" "peggy5AAEB6053F3E94C9B9A09F33669435E7EF1BEAED".
Proof.
  apply (proj2 (NewPeggyDenomFromString_normalises "peggy"
                  "0x5aaeb6053f3e94c9b9a09f33669435e7ef1beaed"
                  "5AAEB6053F3E94C9B9A09F33669435E7EF1BEAED" eq_refl eq_refl)).
  reflexivity.
Defined.

Lemma ValidateEthAddress_accepts_witness :
  ValidateEthAddress "5aAeb6053F3E94C9b9A09f33669435E7Ef1BeAed" = None
  /\ ValidateEthAddress "0x5aAeb6053F3E94C9b9A09f33669435E7Ef1BeAe"
     = Some (NotValidAddress "0x5aAeb6053F3E94C9b9A09f33669435E7Ef1BeAe").
Proof.
  split.
  - apply (proj2 (proj1 (ValidateEthAddress_accepts _))). split; [reflexivity|].
    apply allHex_Forall_hex_digit. reflexivity.
  - apply (proj2 (ValidateEthAddress_accepts
                    "0x5aAeb6053F3E94C9b9A09f33669435E7Ef1BeAe")). discriminate.
Defined.

Lemma constructed_token_coin_witness :
  let a := common.HexToAddress "0x5aaeb6053f3e94c9b9a09f33669435e7ef1beaed" in
  run (p <- NewERC20Token 5 a ;; PeggyCoin "peggy" p) []
  = Returned (sdk.mkCoin "peggy0x5aAeb6053F3E94C9b9A09f33669435E7Ef1BeAed" 5,
              [mkERC20Token 5 "0x5aAeb6053F3E94C9b9A09f33669435E7Ef1BeAed"]).
Proof.
  intros a.
  destruct (constructed_token_coin "peggy" 5 a [] eq_refl eq_refl) as [_ H]; [lia|].
  rewrite H. vm_compute. reflexivity.
Defined.

Lemma constructed_token_ValidateBasic_witness :
  let a := common.HexToAddress "0x5aaeb6053f3e94c9b9a09f33669435e7ef1beaed" in
  run (p <- NewERC20Token 0 a ;; ValidateBasic "peggy" p) []
  = Returned (Some (Wrap ErrInvalidCoins
                      "0peggy0x5aAeb6053F3E94C9b9A09f33669435E7Ef1BeAed"),
              [mkERC20Token 0 "0x5aAeb6053F3E94C9b9A09f33669435E7Ef1BeAed"]).
Proof.
  intros a.
  rewrite (constructed_token_ValidateBasic "peggy" 0 a [] eq_refl eq_refl) by lia.
  vm_compute. reflexivity.
Defined.

Lemma ValidateBasic_negative_amount_witness :
  let t := mkERC20Token (-7) "0x5aAeb6053F3E94C9b9A09f33669435E7Ef1BeAed" in
  run (ValidateBasic "peggy" 0%nat) [t] = Panicked "negative coin amount: -7".
Proof.
  intros t.
  rewrite (ValidateBasic_negative_amount "peggy" [t] 0%nat t eq_refl eq_refl eq_refl)
    by (cbn; lia).
  reflexivity.
Defined.

Lemma Add_result_canonical_witness :
  let h := [mkERC20Token 5 "garbage"; mkERC20Token 7 "garbage"] in
  exists h' t, run (Add 0%nat 1%nat) h = Returned (Ok 2%nat, h')
               /\ deref h' 2%nat = Some t
               /\ ValidateEthAddress (Contract t) = None.
Proof.
  intros h.
  assert (H : run (Add 0%nat 1%nat) h =
              Returned (Ok 2%nat,
                        (h ++ [mkERC20Token 12 "0x0000000000000000000000000000000000000000"])%list))
    by (vm_compute; reflexivity).
  destruct (Add_result_canonical "peggy" h _ 0%nat 1%nat 2%nat H)
    as (te & to & t & _ & _ & Ht & _ & Hv & _).
  eexists _, t. split; [exact H | split; [exact Ht | exact Hv]].
Defined.

Lemma heap_only_grows_witness :
  let h := [mkERC20Token 5 "0x5aAeb6053F3E94C9b9A09f33669435E7Ef1BeAed";
            mkERC20Token 7 "0x5aAeb6053F3E94C9b9A09f33669435E7Ef1BeAed"] in
  exists p h', run (Add 0%nat 1%nat) h = Returned (Ok p, h')
               /\ p = 2%nat /\ List.length h' = 3%nat
               /\ deref h' 0%nat = deref h 0%nat.
Proof.
  intros h.
  assert (H : run (Add 0%nat 1%nat) h =
              Returned (Ok 2%nat,
                        (h ++ [mkERC20Token 12 "0x5aAeb6053F3E94C9b9A09f33669435E7Ef1BeAed"])%list))
    by (vm_compute; reflexivity).
  destruct (proj2 (proj2 (heap_only_grows "peggy" h 0%nat 1%nat)) _ _ H)
    as [Hkeep [Hp Hlen]].
  eexists _, _. split; [exact H|]. split; [exact Hp|]. split; [exact Hlen|].
  now apply Hkeep.
Defined.

Lemma Add_of_constructed_tokens_witness :
  let a := common.HexToAddress "0x5aaeb6053f3e94c9b9a09f33669435e7ef1beaed" in
  run (pe <- NewERC20Token sdk.MaxUint64 a ;; po <- NewERC20Token 1 a ;; Add pe po) []
  = Returned (Err InvalidAmount,
              [mkERC20Token sdk.MaxUint64 "0x5aAeb6053F3E94C9b9A09f33669435E7Ef1BeAed";
               mkERC20Token 1 "0x5aAeb6053F3E94C9b9A09f33669435E7Ef1BeAed"]).
Proof.
  intros a.
  rewrite (Add_of_constructed_tokens sdk.MaxUint64 1 a a [] eq_refl eq_refl)
    by (unfold sdk.MaxUint64; lia).
  vm_compute. reflexivity.
Defined.

(** * Which calls return an error and which panic *)


Section Panics.

Variable ModuleName : string.


End Panics.


